(** * Flower: a brush-steered flow field advecting particles

    Shallow embedding of [Source/FlowerMain.cpp] and the properties of its
    simulation core: the vector field ([sample], [dampen], [comb]), the
    particle system ([initParticles], [updateParticles]) and the per-frame
    driver ([update]); and of its drawing functions ([hsvToRgb],
    [dirToColor], [drawBrush], [drawParticles], [drawField], [draw]).

    The program computes on C++ [float].  Its functions are written once,
    over an interface [FloatOps] listing the scalar operations the source
    uses, and read at two carriers:
    - [b32]: IEEE-754 binary32 with round-to-nearest-even, the arithmetic
      the compiled program runs, executable inside Rocq;
    - [Rops]: exact real arithmetic, the idealisation in which the numeric
      properties (magnitudes, scaling factors) are stated and proved.
    Properties that only depend on the control structure are proved for
    every carrier. *)

From Stdlib Require Import ZArith Reals Lra Lia Bool.
From Stdlib Require Import R_Ifp R_sqrt Rpower.
From Stdlib.Floats Require Import SpecFloat.
From stdpp Require Import base list list_numbers.

Local Open Scope Z_scope.

(** ** Machine integers *)

(** [u32] values are integers in [0, 2^32); arithmetic wraps. *)
Definition wrap32 (z : Z) : Z := z mod 2 ^ 32.

(** [u64] wrap-around, for the microsecond clock. *)
Definition wrap64 (z : Z) : Z := z mod 2 ^ 64.

(** [int] (two's complement, 32 bits) wrap-around, for the difference of
    two wheel counters. *)
Definition wrapInt (z : Z) : Z := (z + 2 ^ 31) mod 2 ^ 32 - 2 ^ 31.

(** [for (u32 i = 0; i < n; ++i) body], threading the mutated state. *)
Definition for_u32 {S : Type} (n : Z) (body : Z → S → S) (s : S) : S :=
  foldl (λ acc i, body i acc) s (seqZ 0 n).

(** ** The scalar interface *)

(** The operations on [float] that the source uses.  [fofZ] is the
    conversion [(float)n] of an integer, [ftrunc] the truncation toward zero
    performed by the cast [(u32)f] and [fsqrt] is [sqrtf]. *)
Class FloatOps (F : Type) := {
  fofZ : Z → F;
  fadd : F → F → F;
  fsub : F → F → F;
  fmul : F → F → F;
  fdiv : F → F → F;
  fabs : F → F;
  fsqrt : F → F;
  fltb : F → F → bool;
  fleb : F → F → bool;
  feqb : F → F → bool;
  ftrunc : F → Z;
}.

(** [pow], which the C library provides and only [comb] calls. *)
Class PowOp (F : Type) := fpow : F → F → F.

(** ** Vec2 and the scalar helpers of the Rush library

    [Vec2], its operators and the helpers [min], [clamp], [lerp] come from
    the Rush library, which is not among the sources.  The operators are
    read as component-wise arithmetic, the helpers as the spec describes
    them. *)

Module Vec2.
Record t (F : Type) := make { x : F; y : F }.
Arguments make {F} _ _.
Arguments x {F} _.
Arguments y {F} _.
End Vec2.
Abbreviation Vec2 := Vec2.t.

Section Scalars.
Context {F : Type} `{FloatOps F}.

(** A decimal literal [n/d] of the source, e.g. [0.8f] is [flit 8 10]:
    the quotient of two exactly representable integers, rounded once. *)
Definition flit (n d : Z) : F := fdiv (fofZ n) (fofZ d).

(** [a > b] is [b < a]. *)
Definition fgtb (a b : F) : bool := fltb b a.

(** Modelled from the spec: Rush's [min] is not among the sources; the
    spec writes [forceLen = min(1, |forceDir|)], the smaller of the two. *)
Definition fmin (a b : F) : F := if fltb a b then a else b.

Definition fmax (a b : F) : F := if fltb a b then b else a.

(** Modelled from the spec: Rush's [clamp] is not among the sources; the
    spec says the radius is clamped to [lo, hi]. *)
Definition clamp (v lo hi : F) : F := fmin (fmax v lo) hi.

(** [Vec2(f)]: both components set to one scalar. *)
Definition vsplat (f : F) : Vec2 F := Vec2.make f f.

Definition vzero : Vec2 F := vsplat (fofZ 0).

Definition vadd (a b : Vec2 F) : Vec2 F :=
  Vec2.make (fadd (Vec2.x a) (Vec2.x b)) (fadd (Vec2.y a) (Vec2.y b)).

Definition vsub (a b : Vec2 F) : Vec2 F :=
  Vec2.make (fsub (Vec2.x a) (Vec2.x b)) (fsub (Vec2.y a) (Vec2.y b)).

(** [v * s] *)
Definition vscale (a : Vec2 F) (s : F) : Vec2 F :=
  Vec2.make (fmul (Vec2.x a) s) (fmul (Vec2.y a) s).

(** [a / b], component by component *)
Definition vdiv (a b : Vec2 F) : Vec2 F :=
  Vec2.make (fdiv (Vec2.x a) (Vec2.x b)) (fdiv (Vec2.y a) (Vec2.y b)).

(** [v / s] *)
Definition vdivs (a : Vec2 F) (s : F) : Vec2 F :=
  Vec2.make (fdiv (Vec2.x a) s) (fdiv (Vec2.y a) s).

(** [a != b] *)
Definition vneb (a b : Vec2 F) : bool :=
  negb (feqb (Vec2.x a) (Vec2.x b) && feqb (Vec2.y a) (Vec2.y b)).

(** Modelled from the spec: Rush's [Vec2::length] is not among the
    sources; it is the Euclidean length, the magnitude the spec bounds. *)
Definition vlength (a : Vec2 F) : F :=
  fsqrt (fadd (fmul (Vec2.x a) (Vec2.x a)) (fmul (Vec2.y a) (Vec2.y a))).

(** Modelled from the spec: Rush's [lerp] is not among the sources; the
    spec blends the first vector toward the second with factor [t]:
    [a] at [t = 0] and [b] at [t = 1]. *)
Definition lerp (a b : Vec2 F) (t : F) : Vec2 F :=
  vadd (vscale a (fsub (fofZ 1) t)) (vscale b t).

#[export] Instance Vec2_inhabited : Inhabited (Vec2 F) := populate vzero.
End Scalars.

(** ** The vector field *)

Record VectorField (F : Type) := mkVectorField { data : list (Vec2 F) }.
Arguments mkVectorField {F} _.
Arguments data {F} _.

Section Field.
Context {F : Type} `{FloatOps F} `{PowOp F}.

(** [VectorField::width] and [height] are 512 in the program; the
    functions below only use them through these two names. *)
Variables width height : Z.

Definition count : Z := wrap32 (width * height).

(** [vf.data[i] = v] *)
Definition set_data (vf : VectorField F) (i : nat) (v : Vec2 F) : VectorField F :=
  mkVectorField (<[i := v]> (data vf)).

(** The index [x + y * width] of a cell, computed in [u32]. *)
Definition cellIndex (x y : Z) : nat := Z.to_nat (wrap32 (x + y * width)).

Definition initVectorField (vf : VectorField F) (value : Vec2 F) : VectorField F :=
  mkVectorField ((λ _, value) <$> data vf).

(** The cast [(u32)f]: truncation toward zero.  C++ defines it when the
    truncated value lies in [0, 2^32); outside that range the model keeps
    the low 32 bits, and the statements about [sample] say which positions
    they cover. *)
Definition to_u32 (f : F) : Z := wrap32 (ftrunc f).

Definition sample (vf : VectorField F) (uv : Vec2 F) : Vec2 F :=
  let ix := to_u32 (fmul (Vec2.x uv) (fofZ width)) mod width in
  let iy := to_u32 (fmul (Vec2.y uv) (fofZ height)) mod height in
  data vf !!! cellIndex ix iy.

Definition dampen (vf : VectorField F) (brushPos : Vec2 F) (brushRadius : F)
  : VectorField F :=
  for_u32 height (λ y vf,
    for_u32 width (λ x vf,
      let p := vdiv (Vec2.make (fofZ x) (fofZ y))
                    (Vec2.make (fofZ width) (fofZ height)) in
      let delta := vsub p brushPos in
      let absDelta := Vec2.make (fabs (Vec2.x delta)) (fabs (Vec2.y delta)) in
      if fleb (Vec2.x absDelta) brushRadius && fleb (Vec2.y absDelta) brushRadius
      then
        let v := data vf !!! cellIndex x y in
        let forceDir := vdivs absDelta brushRadius in
        let forceLen := fmin (fofZ 1) (vlength forceDir) in
        set_data vf (cellIndex x y) (lerp (vscale v (flit 8 10)) v forceLen)
      else vf) vf) vf.

Definition comb (vf : VectorField F) (brushPrev brushCur : Vec2 F) (brushRadius : F)
  : VectorField F :=
  let stroke := vsub brushCur brushPrev in
  let strokeLength := vlength stroke in
  let strokeThreshold := flit 1 10000 in
  if fleb strokeLength strokeThreshold then vf else
  let strokeWeight := fpow strokeLength (flit 18 10) in
  let strokeDir := vdivs stroke strokeLength in
  for_u32 height (λ y vf,
    for_u32 width (λ x vf,
      let p := vdiv (Vec2.make (fofZ x) (fofZ y))
                    (Vec2.make (fofZ width) (fofZ height)) in
      let delta := vsub p brushCur in
      let absDelta := Vec2.make (fabs (Vec2.x delta)) (fabs (Vec2.y delta)) in
      if fleb (Vec2.x absDelta) brushRadius && fleb (Vec2.y absDelta) brushRadius
      then
        let v := data vf !!! cellIndex x y in
        let forceDir := vdivs absDelta brushRadius in
        let forceLen := fmin (fofZ 1) (vlength forceDir) in
        let combWeight :=
          fmul (fmul (fsub (fofZ 1) forceLen) strokeWeight)
               (fdiv (fofZ 150) (fmul (fofZ 4) brushRadius)) in
        let v := vadd v (vscale strokeDir combWeight) in
        let vLength := vlength v in
        let v := if fgtb vLength (fofZ 1) then vdivs v vLength else v in
        set_data vf (cellIndex x y) v
      else vf) vf) vf.

(** *** The per-cell reading of the two brushes

    Each brush visits every cell once, tests the square footprint and
    rewrites the cell from its own old value.  [footprint] is the test,
    [dampenCell] and [combCell] are the new value of a cell inside it, and
    [brushSweep] is the common double loop. *)

Definition cellPos (x y : Z) : Vec2 F :=
  vdiv (Vec2.make (fofZ x) (fofZ y)) (Vec2.make (fofZ width) (fofZ height)).

Definition absDeltaOf (brushPos : Vec2 F) (x y : Z) : Vec2 F :=
  let delta := vsub (cellPos x y) brushPos in
  Vec2.make (fabs (Vec2.x delta)) (fabs (Vec2.y delta)).

Definition footprint (brushPos : Vec2 F) (brushRadius : F) (x y : Z) : bool :=
  fleb (Vec2.x (absDeltaOf brushPos x y)) brushRadius &&
  fleb (Vec2.y (absDeltaOf brushPos x y)) brushRadius.

Definition forceLenOf (brushPos : Vec2 F) (brushRadius : F) (x y : Z) : F :=
  fmin (fofZ 1) (vlength (vdivs (absDeltaOf brushPos x y) brushRadius)).

Definition dampenCell (brushPos : Vec2 F) (brushRadius : F) (x y : Z) (v : Vec2 F)
  : Vec2 F :=
  lerp (vscale v (flit 8 10)) v (forceLenOf brushPos brushRadius x y).

Definition combCell (brushPrev brushCur : Vec2 F) (brushRadius : F) (x y : Z)
  (v : Vec2 F) : Vec2 F :=
  let stroke := vsub brushCur brushPrev in
  let strokeLength := vlength stroke in
  let strokeWeight := fpow strokeLength (flit 18 10) in
  let strokeDir := vdivs stroke strokeLength in
  let combWeight :=
    fmul (fmul (fsub (fofZ 1) (forceLenOf brushCur brushRadius x y)) strokeWeight)
         (fdiv (fofZ 150) (fmul (fofZ 4) brushRadius)) in
  let v := vadd v (vscale strokeDir combWeight) in
  if fgtb (vlength v) (fofZ 1) then vdivs v (vlength v) else v.

(** The cell that [sample] reads. *)
Definition sampleCell (uv : Vec2 F) : Z * Z :=
  (to_u32 (fmul (Vec2.x uv) (fofZ width)) mod width,
   to_u32 (fmul (Vec2.y uv) (fofZ height)) mod height).

Definition brushCell (inside : Z → Z → bool) (upd : Z → Z → Vec2 F → Vec2 F)
  (x y : Z) (vf : VectorField F) : VectorField F :=
  if inside x y
  then set_data vf (cellIndex x y) (upd x y (data vf !!! cellIndex x y))
  else vf.

Definition brushSweep (inside : Z → Z → bool) (upd : Z → Z → Vec2 F → Vec2 F)
  (vf : VectorField F) : VectorField F :=
  for_u32 height (λ y vf, for_u32 width (λ x vf, brushCell inside upd x y vf) vf) vf.

(** The value a sweep leaves in cell [(x, y)] of [vf0] once the cells
    selected by [visited] have been visited. *)
Definition swept (inside : Z → Z → bool) (upd : Z → Z → Vec2 F → Vec2 F)
  (visited : Z → Z → bool) (vf0 : VectorField F) (x y : Z) : Vec2 F :=
  if visited x y && inside x y
  then upd x y (data vf0 !!! cellIndex x y)
  else data vf0 !!! cellIndex x y.

(** The grid coordinates, and the fixed size of [data]. *)
Definition in_grid (x y : Z) : Prop := 0 ≤ x < width ∧ 0 ≤ y < height.

Definition dims_ok : Prop := 0 < width ∧ 0 < height ∧ width * height < 2 ^ 32.

Definition field_wf (vf : VectorField F) : Prop :=
  length (data vf) = Z.to_nat count.
End Field.

(** ** The particle system *)

(** Modelled from the spec: Rush's [Rand] is not among the sources.  The
    spec asks of it uniform floats in a closed-open range and uniform
    integers in a closed-open integer range; a draw also advances the
    generator, so each call returns the value and the next generator. *)
Class RandOps (F Rand : Type) := {
  getFloat : Rand → F → F → F * Rand;
  getUint : Rand → Z → Z → Z * Rand;
}.

Record Particles (F : Type) := mkParticles {
  pos : list (Vec2 F);
  vel : list (Vec2 F);
  life : list Z;
}.
Arguments mkParticles {F} _ _ _.
Arguments pos {F} _.
Arguments vel {F} _.
Arguments life {F} _.

Section ParticleSystem.
Context {F : Type} `{FloatOps F} `{PowOp F} {Rand : Type} `{RandOps F Rand}.

(** [VectorField::width], [VectorField::height] and [Particles::count]
    (512, 512 and 150000 in the program). *)
Variables width height pcount : Z.

Definition set_pos (p : Particles F) (i : nat) (v : Vec2 F) : Particles F :=
  mkParticles (<[i := v]> (pos p)) (vel p) (life p).

Definition set_vel (p : Particles F) (i : nat) (v : Vec2 F) : Particles F :=
  mkParticles (pos p) (<[i := v]> (vel p)) (life p).

Definition set_life (p : Particles F) (i : nat) (n : Z) : Particles F :=
  mkParticles (pos p) (vel p) (<[i := n]> (life p)).

(** [Vec2(rng.getFloat(0, 1), rng.getFloat(0, 1))], first argument drawn
    first. *)
Definition randomPoint (rng : Rand) : Vec2 F * Rand :=
  let '(fx, rng) := getFloat rng (fofZ 0) (fofZ 1) in
  let '(fy, rng) := getFloat rng (fofZ 0) (fofZ 1) in
  (Vec2.make fx fy, rng).

Definition initParticles (p : Particles F) (rng : Rand) : Particles F * Rand :=
  for_u32 pcount (λ i '(p, rng),
    let n := Z.to_nat i in
    let '(pt, rng) := randomPoint rng in
    let p := set_pos p n pt in
    let p := set_vel p n (vsplat (fofZ 0)) in
    let p := set_life p n 0 in
    (p, rng)) (p, rng).

Definition forceScale : F := flit 2 1000.
Definition friction : F := flit 1 10.

(** The test guarding the force: [0 < x < 1] and [0 < y < 1]. *)
Definition insideUnitSquare (q : Vec2 F) : bool :=
  fgtb (Vec2.x q) (fofZ 0) && fltb (Vec2.x q) (fofZ 1) &&
  fgtb (Vec2.y q) (fofZ 0) && fltb (Vec2.y q) (fofZ 1).

(** The value of [force] after lines 120-126 for a particle at [q]. *)
Definition particleForce (vf : VectorField F) (q : Vec2 F) : Vec2 F :=
  let force := vsplat (fofZ 0) in
  if insideUnitSquare q
  then vscale (sample width height vf q) forceScale
  else force.

(** The body of the loop of [updateParticles] for particle [i]. *)
Definition updateParticle (vf : VectorField F) (i : Z) (st : Particles F * Rand)
  : Particles F * Rand :=
  let '(p, rng) := st in
  let n := Z.to_nat i in
  let force := particleForce vf (pos p !!! n) in
  let p := set_pos p n (vadd (pos p !!! n) (vel p !!! n)) in
  let p := set_vel p n (vscale (vel p !!! n) friction) in
  let p := set_vel p n (vadd (vel p !!! n) force) in
  if life p !!! n =? 0 then
    let '(pt, rng) := randomPoint rng in
    let p := set_pos p n pt in
    let p := set_vel p n (vscale (sample width height vf (pos p !!! n)) forceScale) in
    let '(u, rng) := getUint rng 0 80 in
    let p := set_life p n (wrap32 (life p !!! n + u)) in
    (p, rng)
  else
    (set_life p n (wrap32 (life p !!! n - 1)), rng).

Definition updateParticles (p : Particles F) (vf : VectorField F) (rng : Rand)
  : Particles F * Rand :=
  for_u32 pcount (updateParticle vf) (p, rng).

(** The three arrays have [count] entries each. *)
Definition particles_wf (p : Particles F) : Prop :=
  length (pos p) = Z.to_nat pcount
  ∧ length (vel p) = Z.to_nat pcount
  ∧ length (life p) = Z.to_nat pcount.

(** The generator when the loop of [updateParticles] reaches particle
    [i]: the one left by the particles before it. *)
Definition rngAt (p : Particles F) (vf : VectorField F) (rng : Rand) (i : Z) : Rand :=
  (for_u32 i (updateParticle vf) (p, rng)).2.

(** ** The per-frame driver *)

(** The simulation fields of [State]; the renderer's handles are left out. *)
Record State := mkState {
  rng : Rand;
  vectorField : VectorField F;
  particles : Particles F;
  visualDimensions : Vec2 F;
  brushPos : Vec2 F;
  brushPosPrev : Vec2 F;
  brushRadius : F;
  mouseWheel : Z;
  mouseWheelPrev : Z;
  showParticles : bool;
  showField : bool;
  showBrush : bool;
  lastMouseActivityTime : Z;
}.

(** What one frame reads from the window, the mouse and the clock:
    [getSizeFloat()], [ms.pos], [ms.wheelV], [ms.buttons[0]],
    [ms.buttons[1]] and the two readings of [timer.microTime()]. *)
Record Frame := mkFrame {
  sizeFloat : Vec2 F;
  mousePos : Vec2 F;
  wheelV : Z;
  button0 : bool;
  button1 : bool;
  microTime1 : Z;
  microTime2 : Z;
}.

(** [new State] followed by [startup]: the member initialisers, a zero
    field and fresh particles.  [seed] is the default-constructed [Rand]. *)
Definition startup (seed : Rand) : State :=
  let vf := initVectorField
              (mkVectorField (replicate (Z.to_nat (count width height)) inhabitant))
              (vsplat (fofZ 0)) in
  let blank := mkParticles (replicate (Z.to_nat pcount) inhabitant)
                           (replicate (Z.to_nat pcount) inhabitant)
                           (replicate (Z.to_nat pcount) 0) in
  let '(ps, rng) := initParticles blank seed in
  mkState rng vf ps (vsplat (fofZ 1)) (vsplat (flit 1 2)) (vsplat (flit 1 2))
          (flit 1 10) 0 0 true false true 0.

(** The radius after lines 374-383, given the old radius and the wheel
    counters of this frame and of the previous one. *)
Definition updateRadius (radius : F) (wheel wheelPrev : Z) : F :=
  let mouseWheelDelta := wrapInt (wheel - wheelPrev) in
  let brushRadiusDelta := fmul (flit 1 10000) (fofZ mouseWheelDelta) in
  if negb (mouseWheelDelta =? 0)
  then clamp (fadd radius brushRadiusDelta) (flit 1 100) (flit 1 2)
  else radius.

(** [update] without the final [draw], which changes no simulation state. *)
Definition update (st : State) (fr : Frame) : State :=
  let visualDimensions' := sizeFloat fr in
  let brushPosPrev' := brushPos st in
  let brushPos' := vdiv (mousePos fr) visualDimensions' in
  let mouseWheelPrev' := mouseWheel st in
  let mouseWheel' := wheelV fr in
  let mouseWheelDelta := wrapInt (mouseWheel' - mouseWheelPrev') in
  let mouseMoved := vneb brushPos' brushPosPrev' || negb (mouseWheelDelta =? 0) in
  let brushRadius' := updateRadius (brushRadius st) mouseWheel' mouseWheelPrev' in
  let last' := if mouseMoved || button0 fr || button1 fr
               then microTime1 fr else lastMouseActivityTime st in
  let timeSinceLastMouseMove := wrap64 (microTime2 fr - last') in
  let showBrush' := timeSinceLastMouseMove <? 1000000 in
  let vf' :=
    if button0 fr && mouseMoved
    then comb width height (vectorField st) brushPosPrev' brushPos' brushRadius'
    else if button1 fr
    then dampen width height (vectorField st) brushPos' brushRadius'
    else vectorField st in
  let '(ps', rng') := updateParticles (particles st) vf' (rng st) in
  mkState rng' vf' ps' visualDimensions' brushPos' brushPosPrev' brushRadius'
          mouseWheel' mouseWheelPrev' (showParticles st) (showField st)
          showBrush' last'.

(** The state after a run of frames. *)
Definition run (st : State) (frames : list Frame) : State :=
  foldl update st frames.
End ParticleSystem.

(** ** Carrier 1: exact real arithmetic *)

Definition Rltb (a b : R) : bool := if Rlt_dec a b then true else false.
Definition Rleb (a b : R) : bool := if Rle_dec a b then true else false.
Definition Reqb (a b : R) : bool := if Req_dec_T a b then true else false.

(** Truncation toward zero: the floor of a non-negative real, the ceiling
    of a negative one. *)
Definition Rtrunc (r : R) : Z :=
  if Rle_dec 0 r then Int_part r else - Int_part (- r).

#[export] Instance Rops : FloatOps R := {|
  fofZ := IZR;
  fadd := Rplus;
  fsub := Rminus;
  fmul := Rmult;
  fdiv := Rdiv;
  fabs := Rabs;
  fsqrt := sqrt;
  fltb := Rltb;
  fleb := Rleb;
  feqb := Reqb;
  ftrunc := Rtrunc;
|}.

#[export] Instance Rpow : PowOp R := Rpower.

(** ** Carrier 2: IEEE-754 binary32 *)

Definition b32_prec : Z := 24.
Definition b32_emax : Z := 128.

(** [(float)n]: the integer rounded to the nearest binary32. *)
Definition b32_ofZ (n : Z) : spec_float :=
  binary_normalize b32_prec b32_emax n 0 false.

(** [(u32)f] before the reduction to 32 bits: the integer part of a finite
    number, its fraction discarded. *)
Definition b32_trunc (f : spec_float) : Z :=
  match f with
  | S754_finite s m e => cond_Zopp s (Z.shiftl (Z.pos m) e)
  | _ => 0
  end.

(** The binary32 carrier.  It has no [PowOp]: the C library does not
    promise a correctly rounded [pow], so statements about [comb] in
    binary32 hold for every [PowOp spec_float]. *)
#[export] Instance b32 : FloatOps spec_float := {|
  fofZ := b32_ofZ;
  fadd := SFadd b32_prec b32_emax;
  fsub := SFsub b32_prec b32_emax;
  fmul := SFmul b32_prec b32_emax;
  fdiv := SFdiv b32_prec b32_emax;
  fabs := SFabs;
  fsqrt := SFsqrt b32_prec b32_emax;
  fltb := SFltb;
  fleb := SFleb;
  feqb := SFeqb;
  ftrunc := b32_trunc;
|}.

(** ** Notions used in the statements *)

(** The factor by which [dampen], read on the reals, scales a cell inside
    its footprint. *)
Definition dampFactor (width height : Z) (brushPos : Vec2 R) (brushRadius : R)
  (x y : Z) : R :=
  (8 / 10 + 2 / 10 * forceLenOf width height brushPos brushRadius x y)%R.

(** The Euclidean distance from the position of cell [(x, y)] to the brush
    centre. *)
Definition centreDistance (width height : Z) (brushPos : Vec2 R) (x y : Z) : R :=
  vlength (absDeltaOf width height brushPos x y).

(** Every cell of the grid holds a vector at most 1 long. *)
Definition field_bounded (width height : Z) (vf : VectorField R) : Prop :=
  ∀ x y, in_grid width height x y →
    (vlength (data vf !!! cellIndex width x y) <= 1)%R.

(** ** Inputs of the examples *)

(** A field whose cells all hold [v]. *)
Definition constField {F : Type} (width height : Z) (v : Vec2 F) : VectorField F :=
  mkVectorField (replicate (Z.to_nat (count width height)) v).

(** The 4 x 4 scenario of the spec: a zero field combed from (0.1, 0.1) to
    (0.3, 0.1) with radius 0.2. *)
Definition scenarioField : VectorField R := constField 4 4 (Vec2.make 0%R 0%R).
Definition scenarioPrev : Vec2 R := (Vec2.make (1 / 10) (1 / 10))%R.
Definition scenarioCur : Vec2 R := (Vec2.make (3 / 10) (1 / 10))%R.
Definition scenarioRadius : R := (2 / 10)%R.

(** A 512 x 512 field of vectors of length 2, and a stroke across its
    centre. *)
Definition longField : VectorField R := constField 512 512 (Vec2.make 2%R 0%R).
Definition centrePrev : Vec2 R := (Vec2.make (4 / 10) (5 / 10))%R.
Definition centreCur : Vec2 R := (Vec2.make (5 / 10) (5 / 10))%R.

(** The cells of the 4 x 4 scenario outside the footprint, which covers
    columns 1-2 of rows 0-1. *)
Definition scenarioOutside : list (Z * Z) :=
  [(0, 0); (3, 0); (0, 1); (3, 1);
   (0, 2); (1, 2); (2, 2); (3, 2);
   (0, 3); (1, 3); (2, 3); (3, 3)].

(** A 512 x 512 zero field but for cell (511, 0), and a position just left
    of the origin. *)
Definition markedField : VectorField R :=
  set_data (constField 512 512 (Vec2.make 0%R 0%R)) 511 (Vec2.make 1%R 0%R).
Definition leftOfOrigin : Vec2 R := (Vec2.make (- (1 / 1024)) 0)%R.

(** The same position in binary32, [-2^-10], and a position inside the unit
    square, [2^-9 - 2^-33], that rounding moves across a cell border when 1
    is added to it. *)
Definition leftOfOrigin32 : Vec2 spec_float := Vec2.make (flit (-1) 1024) (fofZ 0).
Definition belowBorder32 : Vec2 spec_float :=
  Vec2.make (S754_finite false 16777215 (-33)) (flit 1 2).

(** A generator meeting the contract the spec asks of [Rand], for the
    examples: a 32-bit linear congruential generator. *)
Definition lcgNext (s : Z) : Z := wrap32 (214013 * s + 2531011).

#[export] Instance lcg : RandOps R Z := {|
  getFloat s lo hi :=
    ((lo + (hi - lo) * (IZR (lcgNext s mod 65536) / 65536))%R, lcgNext s);
  getUint s lo hi := (lo + lcgNext s mod (hi - lo), lcgNext s);
|}.

(** 150000 particles with the same position, velocity and lifetime. *)
Definition uniformParticles (q v : Vec2 R) (l : Z) : Particles R :=
  mkParticles (replicate (Z.to_nat 150000) q) (replicate (Z.to_nat 150000) v)
              (replicate (Z.to_nat 150000) l).

(** Particles at rest in the middle with lifetime 0, as after
    [initParticles]; particles drifting right with 5 frames left; and a
    field that points left everywhere. *)
Definition expiredParticles : Particles R :=
  uniformParticles (Vec2.make (1 / 2) (1 / 2))%R (Vec2.make 0%R 0%R) 0.
Definition driftingParticles : Particles R :=
  uniformParticles (Vec2.make (1 / 2) (1 / 2))%R (Vec2.make (1 / 100) 0)%R 5.
Definition leftwardField : VectorField R := constField 512 512 (Vec2.make (-1) 0)%R.

(** The 4 x 4 scenario in binary32. *)
Definition zero32 : Vec2 spec_float := Vec2.make (S754_zero false) (S754_zero false).
Definition scenarioField32 : VectorField spec_float := constField 4 4 zero32.
Definition scenarioPrev32 : Vec2 spec_float := Vec2.make (flit 1 10) (flit 1 10).
Definition scenarioCur32 : Vec2 spec_float := Vec2.make (flit 3 10) (flit 1 10).
Definition scenarioRadius32 : spec_float := flit 2 10.

(** A 4 x 4 field of unit vectors along x in binary32, damped at
    (0.25, 0.25), the position of cell (1, 1), with radius 0.25. *)
Definition unitField32 : VectorField spec_float :=
  constField 4 4 (Vec2.make (fofZ 1) (fofZ 0)).
Definition quarter32 : Vec2 spec_float := Vec2.make (flit 1 4) (flit 1 4).

(** A binary32 number that is neither an infinity nor a NaN. *)
Definition b32_finite (f : spec_float) : bool :=
  match f with
  | S754_zero _ | S754_finite _ _ _ => true
  | _ => false
  end.

(** The radius bounds read in binary32: [0.01f <= r] and [r <= 0.5f]. *)
Definition radius_ok32 (r : spec_float) : Prop :=
  fleb (flit 1 100) r = true ∧ fleb r (flit 1 2) = true.

(** ** Further notions and inputs, for the properties of the rest of the code *)

(** [n] calls of [dampen] with the same brush. *)
Definition dampenTimes {F : Type} `{FloatOps F} (width height : Z) (n : nat)
  (vf : VectorField F) (brushPos : Vec2 F) (brushRadius : F) : VectorField F :=
  Nat.iter n (λ vf, dampen width height vf brushPos brushRadius) vf.

(** A stand-in for [pow] in binary32, for examples whose result does not
    depend on it: it returns its first argument. *)
Definition powStandIn32 : PowOp spec_float := λ a _, a.

(** A binary32 position whose first coordinate is a NaN. *)
Definition nanPos32 : Vec2 spec_float := Vec2.make S754_nan (flit 1 2).

(** The three values of particle [m]. *)
Definition particleAt {F : Type} `{FloatOps F} (p : Particles F) (m : nat)
  : Vec2 F * Vec2 F * Z :=
  (pos p !!! m, vel p !!! m, life p !!! m).

(** A frame in which no button is held. *)
Definition idle {F : Type} (fr : @Frame F) : Prop :=
  button0 fr = false ∧ button1 fr = false.

(** A frame with the mouse at rest in the middle of a 1024 x 1024 window,
    no button held, read at the given clock. *)
Definition restFrame (now : Z) : @Frame R :=
  mkFrame (Vec2.make 1024 1024)%R (Vec2.make 512 512)%R 0 false false now now.

(** A state whose particles drift with 5 frames left, over the leftward
    field. *)
Definition driftingState : @State R Z :=
  mkState 0 leftwardField driftingParticles (Vec2.make 1 1)%R
          (Vec2.make (1 / 2) (1 / 2))%R (Vec2.make (1 / 2) (1 / 2))%R
          (1 / 10)%R 0 0 true false true 0.

(** ** Rendering

    The drawing functions [hsvToRgb], [dirToColor], [drawBrush],
    [drawParticles] and [drawField].  What they hand to Rush's
    [PrimitiveBatch] is returned as a list, in the order of the calls. *)

(** What rendering takes from the C library and from Rush, none of it
    among the sources: [floor], [sinf], [cosf], [atan2], the constants
    [Pi] and [TwoPi], and Rush's [normalize] and [divUp]. *)
Class RenderOps (F : Type) := {
  ffloor : F → F;
  fsin : F → F;
  fcos : F → F;
  fatan2 : F → F → F;
  fPi : F;
  fTwoPi : F;
  normalize : Vec2.t F → Vec2.t F;
  divUp : Z → Z → Z;
}.

(** [ColorRGBA(r, g, b)], the three channels [hsvToRgb] sets. *)
Module ColorRGBA.
Record t (F : Type) := make { r : F; g : F; b : F }.
Arguments make {F} _ _ _.
Arguments r {F} _.
Arguments g {F} _.
Arguments b {F} _.
End ColorRGBA.
Abbreviation ColorRGBA := ColorRGBA.t.

(** [ColorRGBA8]: four bytes. *)
Module ColorRGBA8.
Record t := make { r : Z; g : Z; b : Z; a : Z }.
End ColorRGBA8.
Abbreviation ColorRGBA8 := ColorRGBA8.t.

(** Rush's conversion of a [ColorRGBA] to a [ColorRGBA8], which
    [dirToColor] applies to what it returns. *)
Class ColorConv (F : Type) := toRGBA8 : ColorRGBA F → ColorRGBA8.

Module Vec3.
Record t (F : Type) := make { x : F; y : F; z : F }.
Arguments make {F} _ _ _.
Arguments x {F} _.
Arguments y {F} _.
Arguments z {F} _.
End Vec3.
Abbreviation Vec3 := Vec3.t.

(** [Line2(start, end)] *)
Module Line2.
Record t (F : Type) := make { start : Vec2 F; end_ : Vec2 F }.
Arguments make {F} _ _.
Arguments start {F} _.
Arguments end_ {F} _.
End Line2.
Abbreviation Line2 := Line2.t.

(** One call [prim->drawLine(line, colorStart, colorEnd)]; the call with a
    single colour uses it at both ends. *)
Record DrawnLine (F : Type) := mkDrawnLine {
  line : Line2 F;
  colorStart : ColorRGBA8;
  colorEnd : ColorRGBA8;
}.
Arguments mkDrawnLine {F} _ _ _.
Arguments line {F} _.
Arguments colorStart {F} _.
Arguments colorEnd {F} _.

(** [PrimitiveBatch::BatchVertex] *)
Module BatchVertex.
Record t (F : Type) := make { pos : Vec3 F; tex : Vec2 F; col : ColorRGBA8 }.
Arguments make {F} _ _ _.
Arguments pos {F} _.
Arguments tex {F} _.
Arguments col {F} _.
End BatchVertex.
Abbreviation BatchVertex := BatchVertex.t.

Section Rendering.
Context {F : Type} `{FloatOps F} `{RenderOps F} `{ColorConv F}.
Variables width height pcount : Z.

(** [a * b], component by component *)
Definition vmul (a b : Vec2 F) : Vec2 F :=
  Vec2.make (fmul (Vec2.x a) (Vec2.x b)) (fmul (Vec2.y a) (Vec2.y b)).

(** [c.a = alpha] *)
Definition setAlpha (c : ColorRGBA8) (alpha : Z) : ColorRGBA8 :=
  ColorRGBA8.make (ColorRGBA8.r c) (ColorRGBA8.g c) (ColorRGBA8.b c) alpha.

(** [ColorRGBA8::White()] *)
Definition white : ColorRGBA8 := ColorRGBA8.make 255 255 255 255.

#[export] Instance BatchVertex_inhabited : Inhabited (BatchVertex F) :=
  populate (BatchVertex.make (Vec3.make (fofZ 0) (fofZ 0) (fofZ 0)) vzero
              (ColorRGBA8.make 0 0 0 0)).

Definition hsvToRgb (h s v : F) : ColorRGBA F :=
  let smallNumber := flit 1 100000 in
  if fltb s smallNumber then ColorRGBA.make v v v else
  let h := fdiv h (fofZ 60) in
  let i := wrapInt (ftrunc (ffloor h)) in
  let f := fsub h (fofZ i) in
  let p := fmul v (fsub (fofZ 1) s) in
  let q := fmul v (fsub (fofZ 1) (fmul s f)) in
  let t := fmul v (fsub (fofZ 1) (fmul s (fsub (fofZ 1) f))) in
  match i with
  | 0 => ColorRGBA.make v t p
  | 1 => ColorRGBA.make q v p
  | 2 => ColorRGBA.make p v t
  | 3 => ColorRGBA.make p q v
  | 4 => ColorRGBA.make t p v
  | _ => ColorRGBA.make v p q
  end.

(** The colour of [dirToColor] before its conversion to bytes. *)
Definition dirToColorF (dir : Vec2 F) (saturation brightness : F) : ColorRGBA F :=
  let at' := fdiv (fmul (fofZ 360) (fatan2 (Vec2.x dir) (Vec2.y dir))) fPi in
  hsvToRgb at' saturation brightness.

Definition dirToColor (dir : Vec2 F) (saturation brightness : F) : ColorRGBA8 :=
  toRGBA8 (dirToColorF dir saturation brightness).

(** The point [brushPos + Vec2(ct, st) * brushRadius] of round [i]. *)
Definition brushPoint (brushPos : Vec2 F) (brushRadius : F) (i : Z) : Vec2 F :=
  let divisionCount := 60 in
  let t := fdiv (fofZ i) (fofZ divisionCount) in
  let st := fsin (fmul t fTwoPi) in
  let ct := fcos (fmul t fTwoPi) in
  vadd brushPos (vscale (Vec2.make ct st) brushRadius).

Definition drawBrush (brushPos : Vec2 F) (brushRadius : F) : list (DrawnLine F) :=
  let divisionCount := 60 in
  let prev := vadd brushPos (Vec2.make brushRadius (fofZ 0)) in
  (foldl (λ '(prev, out) i,
      let t := fdiv (fofZ i) (fofZ divisionCount) in
      let st := fsin (fmul t fTwoPi) in
      let ct := fcos (fmul t fTwoPi) in
      let next := vadd brushPos (vscale (Vec2.make ct st) brushRadius) in
      (next, out ++ [mkDrawnLine (Line2.make prev next) white white]))
    (prev, []) (seqZ 1 divisionCount)).2.

(** The direction [drawParticles] draws for a velocity: scaled to pixels
    and by 6, and pointed up by one pixel when it is shorter than a pixel
    on both axes. *)
Definition streakDir (velocity visualDimensions : Vec2 F) : Vec2 F :=
  let dir := vmul velocity visualDimensions in
  let dir := vscale dir (fofZ 6) in
  if fltb (fabs (Vec2.x dir)) (fofZ 1) && fleb (fabs (Vec2.y dir)) (fofZ 1)
  then Vec2.make (Vec2.x dir) (fofZ (-1))
  else dir.

(** The two vertices [drawParticles] writes for particle [particleId]. *)
Definition particleVertices (particles : Particles F) (visualDimensions : Vec2 F)
  (particleId : Z) : BatchVertex F * BatchVertex F :=
  let pos := vmul (pos particles !!! Z.to_nat particleId) visualDimensions in
  let dir := streakDir (vel particles !!! Z.to_nat particleId) visualDimensions in
  let line := Line2.make pos (vsub pos dir) in
  let color := dirToColor (normalize dir) (flit 2 10) (flit 3 10) in
  let colorStart := setAlpha color 115 in
  let colorEnd := setAlpha color 0 in
  (BatchVertex.make
     (Vec3.make (Vec2.x (Line2.start line)) (Vec2.y (Line2.start line)) (fofZ 0))
     (vsplat (fofZ 0)) colorStart,
   BatchVertex.make
     (Vec3.make (Vec2.x (Line2.end_ line)) (Vec2.y (Line2.end_ line)) (fofZ 0))
     (vsplat (fofZ 0)) colorEnd).

(** [drawParticles]: one list of vertices per call of
    [prim->drawVertices].  [maxVerticesPerBatch] is what
    [prim->getMaxBatchVertices()] returns. *)
Definition drawParticles (maxVerticesPerBatch : Z) (particles : Particles F)
  (visualDimensions : Vec2 F) : list (list (BatchVertex F)) :=
  let particleCount := pcount in
  let particlesPerBatch := maxVerticesPerBatch / 2 in
  let batchCount := divUp particleCount particlesPerBatch in
  for_u32 batchCount (λ batchId out,
    let firstIndex := wrap32 (batchId * particlesPerBatch) in
    let lastIndex := Z.min (wrap32 (firstIndex + particlesPerBatch)) pcount in
    let batchParticleCount := wrap32 (lastIndex - firstIndex) in
    let batchVertexCount := wrap32 (batchParticleCount * 2) in
    let vertices := replicate (Z.to_nat batchVertexCount) inhabitant in
    let vertices :=
      for_u32 batchParticleCount (λ i vertices,
        let particleId := wrap32 (firstIndex + i) in
        let vs := particleVertices particles visualDimensions particleId in
        <[Z.to_nat (wrap32 (i * 2 + 1)) := vs.2]>
          (<[Z.to_nat (wrap32 (i * 2 + 0)) := vs.1]> vertices)) vertices in
    out ++ [vertices]) [].

(** The line [drawField] draws for cell [(x, y)]. *)
Definition fieldLine (vf : VectorField F) (visualDimensions : Vec2 F) (x y : Z)
  : DrawnLine F :=
  let fieldDimensions := Vec2.make (fofZ width) (fofZ height) in
  let cellSize := vdiv visualDimensions fieldDimensions in
  let cellHalfSize := vscale cellSize (flit 5 10) in
  let dir := data vf !!! Z.to_nat (wrap32 (x + width * y)) in
  let pos := vadd cellHalfSize (vmul cellSize (Vec2.make (fofZ x) (fofZ y))) in
  let dirLength := vlength dir in
  let color := dirToColor (vdivs dir dirLength) (fmul dirLength (flit 9 10))
                 (fmin (fofZ 1) (fmul dirLength (fofZ 5))) in
  let dirLength := fmin (fofZ 2) (fmul dirLength (fofZ 20)) in
  let line := Line2.make pos
                (vadd pos (vmul (vscale (normalize dir) dirLength) cellSize)) in
  let colorStart := setAlpha color 100 in
  let colorEnd := setAlpha color 0 in
  mkDrawnLine line colorStart colorEnd.

Definition drawField (vf : VectorField F) (visualDimensions : Vec2 F)
  : list (DrawnLine F) :=
  for_u32 height (λ y out,
    for_u32 width (λ x out, out ++ [fieldLine vf visualDimensions x y]) out) [].
End Rendering.

(** The real carrier of the rendering operations.  [Ratan2 y x] is the
    angle of the point [(x, y)], in (-PI, PI]; [normalize] divides a vector
    by its length and [divUp] is the quotient rounded up, in [u32]. *)
Definition Ratan2 (y x : R) : R :=
  if Rlt_dec 0 x then atan (y / x)
  else if Rlt_dec x 0 then
    (if Rle_dec 0 y then atan (y / x) + PI else atan (y / x) - PI)%R
  else if Rlt_dec 0 y then (PI / 2)%R
  else if Rlt_dec y 0 then (- (PI / 2))%R
  else 0%R.

#[export] Instance Rrender : RenderOps R := {|
  ffloor r := IZR (Int_part r);
  fsin := sin;
  fcos := cos;
  fatan2 := Ratan2;
  fPi := PI;
  fTwoPi := (2 * PI)%R;
  normalize v := vdivs v (vlength v);
  divUp n d := wrap32 (wrap32 (n + d - 1) / d);
|}.

(** A conversion to bytes for the examples: each channel, kept in [0, 1],
    scaled to 255 and truncated; opaque. *)
Definition byteOfUnit (c : R) : Z := Int_part (Rmin 1 (Rmax 0 c) * 255).

#[export] Instance Rbytes : ColorConv R := λ c,
  ColorRGBA8.make (byteOfUnit (ColorRGBA.r c)) (byteOfUnit (ColorRGBA.g c))
                  (byteOfUnit (ColorRGBA.b c)) 255.

(** The points the outline of [drawBrush] joins: [prev] before the first
    round, then the [next] of each round. *)
Definition brushVertex {F : Type} `{FloatOps F} `{RenderOps F}
  (brushPos : Vec2 F) (brushRadius : F) (i : Z) : Vec2 F :=
  if decide (i = 0) then vadd brushPos (Vec2.make brushRadius (fofZ 0))
  else brushPoint brushPos brushRadius i.

(** The two vertices of a particle, as a list. *)
Definition vertexPair {F : Type} `{FloatOps F} `{RenderOps F} `{ColorConv F}
  (particles : Particles F) (visualDimensions : Vec2 F) (particleId : Z)
  : list (BatchVertex F) :=
  let vs := particleVertices particles visualDimensions particleId in [vs.1; vs.2].

(** ** The frame's draw calls *)

(** The two blend states [startup] creates. *)
Inductive BlendState := blendLerp | blendAdd.

(** The calls of [draw] on the graphics context and on the primitive
    batch. *)
Inductive DrawCall (F : Type) :=
| BeginPass
| Begin2D (dims : Vec2 F)
| SetBlendState (b : BlendState)
| DrawVertices (vs : list (BatchVertex F))
| DrawLine (l : DrawnLine F)
| Flush
| End2D
| EndPass.
Arguments BeginPass {F}.
Arguments Begin2D {F} _.
Arguments SetBlendState {F} _.
Arguments DrawVertices {F} _.
Arguments DrawLine {F} _.
Arguments Flush {F}.
Arguments End2D {F}.
Arguments EndPass {F}.

Section Draw.
Context {F Rand : Type} `{FloatOps F} `{RenderOps F} `{ColorConv F}.
Variables width height pcount : Z.
(** What [prim->getMaxBatchVertices()] returns. *)
Variable maxVerticesPerBatch : Z.

(** [draw]: the calls it makes, in order. *)
Definition draw (state : @State F Rand) : list (DrawCall F) :=
  [BeginPass; Begin2D (visualDimensions state)]
  ++ (if showParticles state
      then SetBlendState blendAdd
           :: (DrawVertices <$> drawParticles pcount maxVerticesPerBatch
                                  (particles state) (visualDimensions state))
           ++ [Flush]
      else [])
  ++ (if showField state
      then SetBlendState blendLerp
           :: (DrawLine <$> drawField width height (vectorField state)
                              (visualDimensions state))
           ++ [Flush]
      else [])
  ++ (if showBrush state
      then SetBlendState blendLerp
           :: (DrawLine <$> drawBrush (vmul (brushPos state) (visualDimensions state))
                              (fmul (brushRadius state)
                                    (Vec2.x (visualDimensions state))))
           ++ [Flush]
      else [])
  ++ [End2D; EndPass].
End Draw.

(** A window of 800 x 600 pixels. *)
Definition window800 : Vec2 R := (Vec2.make 800 600)%R.

(** A frame in which the first button is held and the mouse has moved
    right of the middle of a 1024 x 1024 window. *)
Definition strokeFrame : @Frame R :=
  mkFrame (Vec2.make 1024 1024)%R (Vec2.make 600 512)%R 0 true false 0 0.

(** * Properties *)

(** ** Counting loops *)

Lemma for_u32_nonpos {S : Type} (n : Z) (body : Z → S → S) (s : S) :
  n ≤ 0 → for_u32 n body s = s.
Proof. intros Hn. unfold for_u32. by rewrite seqZ_nil. Qed.

Lemma for_u32_succ {S : Type} (k : nat) (body : Z → S → S) (s : S) :
  for_u32 (Z.of_nat (Datatypes.S k)) body s
  = body (Z.of_nat k) (for_u32 (Z.of_nat k) body s).
Proof.
  unfold for_u32. rewrite seqZ_S, foldl_snoc. by rewrite Z.add_0_l.
Qed.

(** The invariant rule of the counting loop. *)
Lemma for_u32_ind {S : Type} (P : Z → S → Prop) (n : Z) (body : Z → S → S) (s : S) :
  0 ≤ n →
  P 0 s →
  (∀ i a, 0 ≤ i < n → P i a → P (i + 1) (body i a)) →
  P n (for_u32 n body s).
Proof.
  intros Hn H0 Hstep.
  assert (Hk : ∀ k : nat, Z.of_nat k ≤ n → P (Z.of_nat k) (for_u32 (Z.of_nat k) body s)).
  { induction k as [|k IH]; intros Hle.
    - rewrite for_u32_nonpos by done. exact H0.
    - rewrite for_u32_succ. replace (Z.of_nat (Datatypes.S k)) with (Z.of_nat k + 1) by lia.
      apply Hstep; [lia|]. apply IH. lia. }
  specialize (Hk (Z.to_nat n)). rewrite Z2Nat.id in Hk by done. apply Hk. lia.
Qed.

(** ** The brush sweep, cell by cell *)

Section Sweep.
Context {F : Type} `{FloatOps F}.
Variables width height : Z.
Hypothesis Hdims : dims_ok width height.

Lemma cellIndex_in_grid x y :
  in_grid width height x y → cellIndex width x y = Z.to_nat (x + y * width).
Proof.
  intros [Hx Hy]. destruct Hdims as (Hw & Hh & Hfit).
  unfold cellIndex, wrap32. rewrite Z.mod_small; [done|]. nia.
Qed.

Lemma cellIndex_lt x y :
  in_grid width height x y →
  (cellIndex width x y < Z.to_nat (count width height))%nat.
Proof.
  intros Hg. rewrite cellIndex_in_grid by done.
  destruct Hg as [Hx Hy]. destruct Hdims as (Hw & Hh & Hfit).
  unfold count, wrap32. rewrite Z.mod_small by nia. nia.
Qed.

Lemma cellIndex_inj x y x' y' :
  in_grid width height x y → in_grid width height x' y' →
  cellIndex width x y = cellIndex width x' y' → x = x' ∧ y = y'.
Proof.
  intros Hg Hg' Heq. rewrite !cellIndex_in_grid in Heq by done.
  destruct Hg as [Hx Hy], Hg' as [Hx' Hy'].
  assert (x + y * width = x' + y' * width) by nia.
  assert (y = y') by nia. subst. lia.
Qed.

(** Every index below [count] is the index of one cell of the grid. *)
Lemma cellIndex_surj (i : nat) :
  (i < Z.to_nat (count width height))%nat →
  ∃ x y, in_grid width height x y ∧ cellIndex width x y = i.
Proof.
  intros Hi. destruct Hdims as (Hw & Hh & Hfit).
  unfold count, wrap32 in Hi. rewrite Z.mod_small in Hi by nia.
  exists (Z.of_nat i mod width), (Z.of_nat i / width).
  assert (Hg : in_grid width height (Z.of_nat i mod width) (Z.of_nat i / width)).
  { split; [apply Z.mod_pos_bound; lia|]. split; [apply Z.div_pos; lia|].
    apply Z.div_lt_upper_bound; nia. }
  split; [done|]. rewrite cellIndex_in_grid by done.
  rewrite Z.mul_comm, Z.add_comm, <- Z.div_mod by lia. lia.
Qed.

Variable inside : Z → Z → bool.
Variable upd : Z → Z → Vec2 F → Vec2 F.

Lemma brushCell_length x y vf :
  length (data (brushCell width inside upd x y vf)) = length (data vf).
Proof. unfold brushCell. destruct (inside x y); [apply length_insert|done]. Qed.

(** One more cell [(x0, y0)] visited. *)
Lemma brushCell_swept visited vf0 vf x0 y0 :
  field_wf width height vf0 →
  in_grid width height x0 y0 →
  visited x0 y0 = false →
  length (data vf) = length (data vf0) →
  (∀ x y, in_grid width height x y →
     data vf !!! cellIndex width x y = swept width inside upd visited vf0 x y) →
  ∀ x y, in_grid width height x y →
    data (brushCell width inside upd x0 y0 vf) !!! cellIndex width x y
    = swept width inside upd (λ a b, visited a b || ((a =? x0) && (b =? y0))) vf0 x y.
Proof.
  intros Hwf Hg0 Hfresh Hlen Hinv x y Hg. unfold brushCell, swept.
  destruct (decide (x = x0 ∧ y = y0)) as [[-> ->]|Hne].
  - rewrite !Z.eqb_refl, orb_true_r. simpl.
    destruct (inside x0 y0) eqn:Hin; simpl.
    + rewrite list_lookup_total_insert_eq.
      * rewrite Hinv by done. unfold swept. by rewrite Hfresh.
      * rewrite Hlen, Hwf. by apply cellIndex_lt.
    + rewrite Hinv by done. unfold swept. by rewrite Hfresh.
  - assert (Hb : (x =? x0) && (y =? y0) = false).
    { apply andb_false_iff. destruct (Z.eqb_spec x x0), (Z.eqb_spec y y0); auto.
      exfalso. auto. }
    rewrite Hb, orb_false_r.
    destruct (inside x0 y0); simpl.
    + rewrite list_lookup_total_insert_ne.
      * apply Hinv; done.
      * intros Heq. apply Hne. symmetry in Heq.
        by apply cellIndex_inj in Heq.
    + apply Hinv; done.
Qed.

Lemma swept_ext v1 v2 vf0 x y :
  v1 x y = v2 x y → swept width inside upd v1 vf0 x y = swept width inside upd v2 vf0 x y.
Proof. unfold swept. by intros ->. Qed.

(** The inner loop over [x], on row [y0], after earlier rows. *)
Lemma row_swept vf0 vf y0 :
  field_wf width height vf0 →
  0 ≤ y0 < height →
  length (data vf) = length (data vf0) →
  (∀ x y, in_grid width height x y →
     data vf !!! cellIndex width x y = swept width inside upd (λ _ b, b <? y0) vf0 x y) →
  let vf' := for_u32 width (λ x vf, brushCell width inside upd x y0 vf) vf in
  length (data vf') = length (data vf0) ∧
  ∀ x y, in_grid width height x y →
    data vf' !!! cellIndex width x y = swept width inside upd (λ _ b, b <? y0 + 1) vf0 x y.
Proof.
  intros Hwf Hy0 Hlen Hinv vf'.
  destruct Hdims as (Hw & Hh & Hfit).
  pose (P := λ (k : Z) (a : VectorField F),
    length (data a) = length (data vf0) ∧
    ∀ x y, in_grid width height x y →
      data a !!! cellIndex width x y
      = swept width inside upd (λ a b, (b <? y0) || ((b =? y0) && (a <? k))) vf0 x y).
  assert (HP : P width vf').
  { apply for_u32_ind; [lia| |].
    - split; [done|]. intros x y Hg. rewrite Hinv by done.
      apply swept_ext. destruct Hg as [Hx _].
      replace (x <? 0) with false by lia. by rewrite andb_false_r, orb_false_r.
    - intros k a Hk [Hl Ha]. split; [by rewrite brushCell_length|].
      intros x y Hg.
      rewrite (brushCell_swept (λ a b, (b <? y0) || ((b =? y0) && (a <? k))) vf0);
        try done.
      + apply swept_ext. destruct (Z.eqb_spec y y0), (Z.eqb_spec x k);
          destruct (Z.ltb_spec y y0), (Z.ltb_spec x k), (Z.ltb_spec x (k + 1));
          simpl; try reflexivity; lia.
      + by rewrite !Z.ltb_irrefl, andb_false_r. }
  destruct HP as [Hl Ha]. split; [done|]. intros x y Hg. rewrite Ha by done.
  apply swept_ext. destruct Hg as [Hx _].
  destruct (Z.eqb_spec y y0), (Z.ltb_spec y y0), (Z.ltb_spec x width),
    (Z.ltb_spec y (y0 + 1)); simpl; try reflexivity; lia.
Qed.

(** The whole sweep: the length is kept and each cell of the grid is
    rewritten, from its own old value, exactly when it passes the test. *)
Lemma brushSweep_spec vf :
  field_wf width height vf →
  field_wf width height (brushSweep width height inside upd vf) ∧
  ∀ x y, in_grid width height x y →
    data (brushSweep width height inside upd vf) !!! cellIndex width x y
    = if inside x y
      then upd x y (data vf !!! cellIndex width x y)
      else data vf !!! cellIndex width x y.
Proof.
  intros Hwf. destruct Hdims as (Hw & Hh & Hfit).
  pose (P := λ (k : Z) (a : VectorField F),
    length (data a) = length (data vf) ∧
    ∀ x y, in_grid width height x y →
      data a !!! cellIndex width x y = swept width inside upd (λ _ b, b <? k) vf x y).
  assert (HP : P height (brushSweep width height inside upd vf)).
  { unfold brushSweep. apply for_u32_ind; [lia| |].
    - split; [done|]. intros x y [_ Hy]. unfold swept.
      by replace (y <? 0) with false by lia.
    - intros k a Hk [Hl Ha]. by apply row_swept. }
  destruct HP as [Hl Ha]. split.
  - unfold field_wf. by rewrite Hl.
  - intros x y Hg. rewrite Ha by done. unfold swept.
    destruct Hg as [_ Hy]. by replace (y <? height) with true by lia.
Qed.

Lemma brushSweep_wf vf :
  field_wf width height vf →
  field_wf width height (brushSweep width height inside upd vf).
Proof. intros Hwf. by apply brushSweep_spec. Qed.

Lemma brushSweep_lookup vf x y :
  field_wf width height vf → in_grid width height x y →
  data (brushSweep width height inside upd vf) !!! cellIndex width x y
  = if inside x y
    then upd x y (data vf !!! cellIndex width x y)
    else data vf !!! cellIndex width x y.
Proof. intros Hwf Hg. by apply brushSweep_spec. Qed.
End Sweep.

(** ** The two brushes as sweeps *)

Section Brushes.
Context {F : Type} `{FloatOps F} `{PowOp F}.
Variables width height : Z.

Lemma dampen_sweep (vf : VectorField F) brushPos brushRadius :
  dampen width height vf brushPos brushRadius
  = brushSweep width height (footprint width height brushPos brushRadius)
      (dampenCell width height brushPos brushRadius) vf.
Proof. reflexivity. Qed.

(** [comb] returns before its loops when the stroke is short. *)
Lemma comb_sweep (vf : VectorField F) brushPrev brushCur brushRadius :
  comb width height vf brushPrev brushCur brushRadius
  = if fleb (vlength (vsub brushCur brushPrev)) (flit 1 10000) then vf
    else brushSweep width height (footprint width height brushCur brushRadius)
           (combCell width height brushPrev brushCur brushRadius) vf.
Proof. unfold comb. by destruct (fleb _ _). Qed.

Hypothesis Hdims : dims_ok width height.

Lemma dampen_wf (vf : VectorField F) brushPos brushRadius :
  field_wf width height vf →
  field_wf width height (dampen width height vf brushPos brushRadius).
Proof. intros Hwf. rewrite dampen_sweep. by apply brushSweep_wf. Qed.

Lemma comb_wf (vf : VectorField F) brushPrev brushCur brushRadius :
  field_wf width height vf →
  field_wf width height (comb width height vf brushPrev brushCur brushRadius).
Proof.
  intros Hwf. rewrite comb_sweep. destruct (fleb _ _); [done|].
  by apply brushSweep_wf.
Qed.

Lemma dampen_lookup (vf : VectorField F) brushPos brushRadius x y :
  field_wf width height vf → in_grid width height x y →
  data (dampen width height vf brushPos brushRadius) !!! cellIndex width x y
  = if footprint width height brushPos brushRadius x y
    then dampenCell width height brushPos brushRadius x y
           (data vf !!! cellIndex width x y)
    else data vf !!! cellIndex width x y.
Proof. intros Hwf Hg. rewrite dampen_sweep. by apply brushSweep_lookup. Qed.

Lemma comb_lookup (vf : VectorField F) brushPrev brushCur brushRadius x y :
  field_wf width height vf → in_grid width height x y →
  data (comb width height vf brushPrev brushCur brushRadius) !!! cellIndex width x y
  = if negb (fleb (vlength (vsub brushCur brushPrev)) (flit 1 10000))
       && footprint width height brushCur brushRadius x y
    then combCell width height brushPrev brushCur brushRadius x y
           (data vf !!! cellIndex width x y)
    else data vf !!! cellIndex width x y.
Proof.
  intros Hwf Hg. rewrite comb_sweep. destruct (fleb _ _); simpl; [done|].
  by apply brushSweep_lookup.
Qed.

(** The early return of [comb], for every carrier. *)
Lemma comb_short_stroke (vf : VectorField F) brushPrev brushCur brushRadius :
  fleb (vlength (vsub brushCur brushPrev)) (flit 1 10000) = true →
  comb width height vf brushPrev brushCur brushRadius = vf.
Proof. intros Hshort. rewrite comb_sweep. by rewrite Hshort. Qed.

Lemma footprint_false brushPos brushRadius x y :
  fleb (Vec2.x (absDeltaOf width height brushPos x y)) brushRadius = false
  ∨ fleb (Vec2.y (absDeltaOf width height brushPos x y)) brushRadius = false →
  footprint width height brushPos brushRadius x y = false.
Proof. unfold footprint. intros [-> | ->]; [done|]. apply andb_false_r. Qed.
End Brushes.

(** C8. Frame of the brushes, for every carrier of the arithmetic (so bit
    for bit in binary32): a cell of the grid that fails the footprint test
    on either axis, that is whose distance from the brush centre along that
    axis is not within the radius, holds after [comb] and after [dampen]
    the very vector it held before. *)
Theorem brushes_keep_cells_outside_footprint
  {F : Type} `{FloatOps F} `{PowOp F} (width height : Z) (vf : VectorField F)
  (brushPrev brushPos : Vec2 F) (brushRadius : F) (x y : Z) :
  dims_ok width height →
  field_wf width height vf →
  in_grid width height x y →
  fleb (Vec2.x (absDeltaOf width height brushPos x y)) brushRadius = false
  ∨ fleb (Vec2.y (absDeltaOf width height brushPos x y)) brushRadius = false →
  data (comb width height vf brushPrev brushPos brushRadius) !!! cellIndex width x y
  = data vf !!! cellIndex width x y
  ∧ data (dampen width height vf brushPos brushRadius) !!! cellIndex width x y
  = data vf !!! cellIndex width x y.
Proof.
  intros Hdims Hwf Hg Hout. apply footprint_false in Hout.
  rewrite comb_lookup, dampen_lookup by done.
  by rewrite Hout, andb_false_r.
Qed.

(** ** The real carrier *)

Ltac real_ops :=
  unfold lerp, clamp, vzero, vlength in *;
  unfold flit, fgtb, fmin, fmax, vsplat, vadd, vsub, vscale, vdiv, vdivs in *;
  unfold fpow, Rpow in *;
  cbn [fofZ fadd fsub fmul fdiv fabs fsqrt fltb fleb feqb ftrunc Rops
       Vec2.x Vec2.y] in *.

Section RealFacts.
Local Open Scope R_scope.

Lemma Rleb_true a b : Rleb a b = true ↔ a <= b.
Proof. unfold Rleb. destruct (Rle_dec a b); split; intros; done || lra. Qed.

Lemma Rleb_false a b : Rleb a b = false ↔ b < a.
Proof. unfold Rleb. destruct (Rle_dec a b); split; intros; done || lra. Qed.

Lemma Rltb_true a b : Rltb a b = true ↔ a < b.
Proof. unfold Rltb. destruct (Rlt_dec a b); split; intros; done || lra. Qed.

Lemma Rltb_false a b : Rltb a b = false ↔ b <= a.
Proof. unfold Rltb. destruct (Rlt_dec a b); split; intros; done || lra. Qed.

Lemma vec2_eq (a b : Vec2 R) :
  Vec2.x a = Vec2.x b → Vec2.y a = Vec2.y b → a = b.
Proof. destruct a, b; simpl; by intros -> ->. Qed.

Lemma vlength_nonneg (v : Vec2 R) : 0 <= vlength v.
Proof. real_ops. apply sqrt_pos. Qed.

Lemma vlength_vscale (v : Vec2 R) (k : R) :
  vlength (vscale v k) = Rabs k * vlength v.
Proof.
  real_ops.
  replace (Vec2.x v * k * (Vec2.x v * k) + Vec2.y v * k * (Vec2.y v * k))
    with (Rsqr k * (Vec2.x v * Vec2.x v + Vec2.y v * Vec2.y v))
    by (unfold Rsqr; ring).
  rewrite sqrt_mult_alt by apply Rle_0_sqr. by rewrite sqrt_Rsqr_abs.
Qed.

(** A vector longer than zero divided by its own length has length 1. *)
Lemma vlength_normalized (v : Vec2 R) :
  0 < vlength v → vlength (vdivs v (vlength v)) = 1.
Proof.
  intros Hpos. destruct v as [a b]. real_ops.
  assert (Hs : 0 <= a * a + b * b) by nra.
  pose proof (sqrt_sqrt _ Hs) as Hsq.
  set (l := sqrt (a * a + b * b)) in *.
  replace (a / l * (a / l) + b / l * (b / l))
    with ((a * a + b * b) / (l * l)) by (field; lra).
  rewrite Hsq. replace ((a * a + b * b) / (a * a + b * b)) with 1;
    [apply sqrt_1|].
  field. nra.
Qed.

Lemma fmin_real a b : fmin (F := R) a b = Rmin a b.
Proof.
  real_ops. unfold Rltb, Rmin.
  destruct (Rlt_dec a b), (Rle_dec a b); try reflexivity; lra.
Qed.

Lemma forceLenOf_range width height (c : Vec2 R) (r : R) x y :
  0 <= forceLenOf width height c r x y <= 1.
Proof.
  unfold forceLenOf. rewrite fmin_real.
  pose proof (vlength_nonneg (vdivs (absDeltaOf width height c x y) r)) as Hl.
  cbn [fofZ Rops]. unfold Rmin. destruct (Rle_dec _ _); lra.
Qed.

(** [dampen] scales a cell by [0.8 + 0.2 * forceLen]. *)
Lemma dampenCell_scale width height (c : Vec2 R) (r : R) x y (v : Vec2 R) :
  dampenCell width height c r x y v
  = vscale v (8 / 10 + 2 / 10 * forceLenOf width height c r x y).
Proof.
  unfold dampenCell. set (t := forceLenOf _ _ _ _ _ _).
  apply vec2_eq; real_ops; field.
Qed.

(** The new value of a cell inside the footprint of [comb] is at most 1
    long. *)
Lemma combCell_bound width height (p c : Vec2 R) (r : R) x y (v : Vec2 R) :
  vlength (combCell width height p c r x y v) <= 1.
Proof.
  unfold combCell. cbv zeta.
  set (w := vadd v _). unfold fgtb. cbn [fltb Rops fofZ].
  destruct (Rltb 1 (vlength w)) eqn:Hlt.
  - apply Rltb_true in Hlt. rewrite vlength_normalized; lra.
  - apply Rltb_false in Hlt. done.
Qed.
End RealFacts.

(** ** Magnitudes under the brushes, on the reals *)

Section RealBrushes.
Local Open Scope R_scope.
Variables width height : Z.

Lemma footprint_real (c : Vec2 R) (r : R) x y :
  footprint width height c r x y = true
  ↔ Vec2.x (absDeltaOf width height c x y) <= r
    ∧ Vec2.y (absDeltaOf width height c x y) <= r.
Proof.
  unfold footprint. cbn [fleb Rops]. rewrite andb_true_iff, !Rleb_true. done.
Qed.

Lemma absDeltaOf_real (c : Vec2 R) x y :
  absDeltaOf width height c x y
  = Vec2.make (Rabs (IZR x / IZR width - Vec2.x c))
              (Rabs (IZR y / IZR height - Vec2.y c)).
Proof. reflexivity. Qed.

Lemma vlength_ge_x (a : Vec2 R) : Rabs (Vec2.x a) <= vlength a.
Proof.
  destruct a as [p q]. real_ops. rewrite <- sqrt_Rsqr_abs.
  apply sqrt_le_1_alt. unfold Rsqr. nra.
Qed.

Lemma vlength_ge_y (a : Vec2 R) : Rabs (Vec2.y a) <= vlength a.
Proof.
  destruct a as [p q]. real_ops. rewrite <- sqrt_Rsqr_abs.
  apply sqrt_le_1_alt. unfold Rsqr. nra.
Qed.

Lemma vlength_vdivs (a : Vec2 R) (r : R) :
  0 < r → vlength (vdivs a r) = vlength a / r.
Proof.
  intros Hr. change (vdivs a r) with (vscale a (/ r)).
  rewrite vlength_vscale, Rabs_right.
  - unfold Rdiv. ring.
  - apply Rle_ge, Rlt_le, Rinv_0_lt_compat, Hr.
Qed.

(** [forceLen] is the distance to the centre in units of the radius,
    capped at 1. *)
Lemma forceLenOf_real (c : Vec2 R) (r : R) x y :
  0 < r →
  forceLenOf width height c r x y = Rmin 1 (centreDistance width height c x y / r).
Proof.
  intros Hr. unfold forceLenOf, centreDistance.
  by rewrite fmin_real, vlength_vdivs.
Qed.

Lemma dampFactor_range (c : Vec2 R) (r : R) x y :
  8 / 10 <= dampFactor width height c r x y <= 1.
Proof.
  unfold dampFactor. pose proof (forceLenOf_range width height c r x y). lra.
Qed.

Lemma dampFactor_mono (c : Vec2 R) (r : R) x1 y1 x2 y2 :
  0 < r →
  centreDistance width height c x1 y1 <= centreDistance width height c x2 y2 →
  dampFactor width height c r x1 y1 <= dampFactor width height c r x2 y2.
Proof.
  intros Hr Hd. unfold dampFactor. rewrite !forceLenOf_real by done.
  assert (centreDistance width height c x1 y1 / r
          <= centreDistance width height c x2 y2 / r).
  { unfold Rdiv. apply Rmult_le_compat_r; [|done].
    apply Rlt_le, Rinv_0_lt_compat, Hr. }
  unfold Rmin. repeat destruct (Rle_dec _ _); lra.
Qed.

Lemma dampFactor_far (c : Vec2 R) (r : R) x y :
  0 < r → r <= centreDistance width height c x y →
  dampFactor width height c r x y = 1.
Proof.
  intros Hr Hd. unfold dampFactor. rewrite forceLenOf_real by done.
  assert (1 <= centreDistance width height c x y / r).
  { apply (Rmult_le_reg_r r); [done|]. unfold Rdiv.
    rewrite Rmult_assoc, Rinv_l by lra. lra. }
  rewrite Rmin_left by done. lra.
Qed.

Lemma dampFactor_centre (c : Vec2 R) (r : R) x y :
  0 < r → centreDistance width height c x y = 0 →
  dampFactor width height c r x y = 8 / 10.
Proof.
  intros Hr Hd. unfold dampFactor. rewrite forceLenOf_real, Hd by done.
  unfold Rdiv. rewrite Rmult_0_l, Rmin_right by lra. lra.
Qed.

Lemma centreDistance_ge_x (c : Vec2 R) x y :
  Vec2.x (absDeltaOf width height c x y) <= centreDistance width height c x y.
Proof.
  unfold centreDistance.
  pose proof (vlength_ge_x (absDeltaOf width height c x y)) as Hx.
  pose proof (Rle_abs (Vec2.x (absDeltaOf width height c x y))). lra.
Qed.

Lemma centreDistance_ge_y (c : Vec2 R) x y :
  Vec2.y (absDeltaOf width height c x y) <= centreDistance width height c x y.
Proof.
  unfold centreDistance.
  pose proof (vlength_ge_y (absDeltaOf width height c x y)) as Hy.
  pose proof (Rle_abs (Vec2.y (absDeltaOf width height c x y))). lra.
Qed.

Lemma vscale_one (v : Vec2 R) : vscale v 1 = v.
Proof. destruct v. real_ops. by rewrite !Rmult_1_r. Qed.

Hypothesis Hdims : dims_ok width height.

(** What [dampen] leaves in a cell, on the reals. *)
Lemma dampen_cell_real (vf : VectorField R) (c : Vec2 R) (r : R) x y :
  field_wf width height vf → in_grid width height x y →
  data (dampen width height vf c r) !!! cellIndex width x y
  = if footprint width height c r x y
    then vscale (data vf !!! cellIndex width x y) (dampFactor width height c r x y)
    else data vf !!! cellIndex width x y.
Proof.
  intros Hwf Hg. rewrite dampen_lookup by done.
  destruct (footprint _ _ _ _ _ _); [|done]. apply dampenCell_scale.
Qed.

Lemma dampen_cell_length (vf : VectorField R) (c : Vec2 R) (r : R) x y :
  field_wf width height vf → in_grid width height x y →
  vlength (data (dampen width height vf c r) !!! cellIndex width x y)
  <= vlength (data vf !!! cellIndex width x y).
Proof.
  intros Hwf Hg. rewrite dampen_cell_real by done.
  destruct (footprint _ _ _ _ _ _); [|lra].
  rewrite vlength_vscale.
  pose proof (dampFactor_range c r x y) as Hk.
  pose proof (vlength_nonneg (data vf !!! cellIndex width x y)) as Hl.
  rewrite Rabs_right by lra. nra.
Qed.
End RealBrushes.

(** ** Constant fields *)

Lemma constField_wf {F : Type} (width height : Z) (v : Vec2 F) :
  field_wf width height (constField width height v).
Proof. unfold field_wf, constField. simpl. apply length_replicate. Qed.

Lemma constField_lookup {F : Type} `{FloatOps F} (width height : Z) (v : Vec2 F) x y :
  dims_ok width height → in_grid width height x y →
  data (constField width height v) !!! cellIndex width x y = v.
Proof.
  intros Hdims Hg. unfold constField. simpl.
  apply lookup_total_replicate_2. by apply cellIndex_lt.
Qed.

Lemma dims_ok_4 : dims_ok 4 4.
Proof. unfold dims_ok. lia. Qed.

Lemma dims_ok_512 : dims_ok 512 512.
Proof. unfold dims_ok. lia. Qed.

(** ** The comb brush *)

(** C7. On the reals, a stroke of length at most 1e-4 makes [comb] return
    the field it was given: whatever the field, the brush position and the
    radius, no cell changes.  [Comb(p, p, r)] is the stroke of length 0. *)
Theorem comb_noop_below_threshold (width height : Z) (vf : VectorField R)
  (brushPrev brushCur : Vec2 R) (brushRadius : R) :
  (vlength (vsub brushCur brushPrev) <= 1 / 10000)%R →
  comb width height vf brushPrev brushCur brushRadius = vf.
Proof.
  intros Hshort. apply comb_short_stroke.
  unfold flit. cbn [fleb fofZ fdiv Rops]. apply Rleb_true. exact Hshort.
Qed.

Lemma vlength_zero_stroke (p : Vec2 R) : vlength (vsub p p) = 0%R.
Proof. real_ops. rewrite !Rminus_diag, Rmult_0_l, Rplus_0_l. apply sqrt_0. Qed.

Lemma comb_same_point (width height : Z) (vf : VectorField R) (p : Vec2 R) (r : R) :
  comb width height vf p p r = vf.
Proof.
  apply comb_short_stroke. apply Rleb_true. rewrite vlength_zero_stroke.
  unfold flit. cbn [fofZ fdiv Rops]. lra.
Qed.

Lemma sqrt_le_of_sq (a b : R) : (0 <= b)%R → (a <= b * b)%R → (sqrt a <= b)%R.
Proof.
  intros Hb Hab. rewrite <- (sqrt_square b) by done. by apply sqrt_le_1_alt.
Qed.

Lemma comb_noop_below_threshold_witness :
  comb 512 512 longField centreCur centreCur (1 / 10)%R = longField
  ∧ comb 512 512 longField centreCur
      (vadd centreCur (Vec2.make (5 / 100000) 0)%R) (1 / 10)%R = longField.
Proof.
  split.
  - apply (comb_noop_below_threshold 512 512 longField centreCur centreCur).
    rewrite vlength_zero_stroke. lra.
  - apply (comb_noop_below_threshold 512 512 longField centreCur).
    unfold centreCur. real_ops. apply sqrt_le_of_sq; lra.
Defined.

(** C1, as amended.  On the reals and for a positive radius: after a stroke
    longer than the threshold every cell inside the footprint is at most 1
    long, and a cell that was at most 1 long before any [comb] call is at
    most 1 long after it.  A field bounded by 1 therefore stays bounded by
    1; a longer vector outside the footprint is kept as it is. *)
Theorem comb_keeps_unit_bound (width height : Z) (vf : VectorField R)
  (brushPrev brushCur : Vec2 R) (brushRadius : R) (x y : Z) :
  dims_ok width height →
  field_wf width height vf →
  in_grid width height x y →
  (0 < brushRadius)%R →
  let v := data vf !!! cellIndex width x y in
  let v' := data (comb width height vf brushPrev brushCur brushRadius)
              !!! cellIndex width x y in
  ((1 / 10000 < vlength (vsub brushCur brushPrev))%R →
   footprint width height brushCur brushRadius x y = true →
   (vlength v' <= 1)%R)
  ∧ ((vlength v <= 1)%R → (vlength v' <= 1)%R).
Proof.
  intros Hdims Hwf Hg Hr v v'. subst v v'.
  rewrite comb_lookup by done. split.
  - intros Hlong Hin. rewrite Hin, andb_true_r.
    replace (fleb _ _) with false; [apply combCell_bound|].
    symmetry. apply Rleb_false. exact Hlong.
  - intros Hv. destruct (negb _ && _); [apply combCell_bound|done].
Qed.

Lemma lt_sqrt (a b : R) : (0 <= a)%R → (a * a < b)%R → (a < sqrt b)%R.
Proof.
  intros Ha Hab. rewrite <- (sqrt_square a) by done.
  apply sqrt_lt_1_alt. nra.
Qed.

Lemma comb_outside {F : Type} `{FloatOps F} `{PowOp F} (width height : Z) (vf : VectorField F)
  (brushPrev brushCur : Vec2 F) (brushRadius : F) (x y : Z) :
  dims_ok width height → field_wf width height vf → in_grid width height x y →
  footprint width height brushCur brushRadius x y = false →
  data (comb width height vf brushPrev brushCur brushRadius) !!! cellIndex width x y
  = data vf !!! cellIndex width x y.
Proof. intros Hd Hwf Hg Hout. rewrite comb_lookup by done. by rewrite Hout, andb_false_r. Qed.

Lemma scenario_stroke_long : (1 / 10000 < vlength (vsub scenarioCur scenarioPrev))%R.
Proof. unfold scenarioCur, scenarioPrev. real_ops. apply lt_sqrt; lra. Qed.

Lemma scenario_cell_1_0_inside :
  footprint 4 4 scenarioCur scenarioRadius 1 0 = true.
Proof.
  apply footprint_real. rewrite absDeltaOf_real. simpl.
  unfold scenarioRadius. split; apply Rabs_le; lra.
Qed.

Lemma comb_keeps_unit_bound_witness :
  (vlength (data (comb 4 4 scenarioField scenarioPrev scenarioCur scenarioRadius)
              !!! cellIndex 4 1 0) <= 1)%R.
Proof.
  refine (proj1 (comb_keeps_unit_bound 4 4 scenarioField scenarioPrev scenarioCur
                   scenarioRadius 1 0 dims_ok_4 (constField_wf 4 4 _) _ _) _ _).
  - unfold in_grid. lia.
  - unfold scenarioRadius. lra.
  - exact scenario_stroke_long.
  - exact scenario_cell_1_0_inside.
Defined.

(** C1 as stated fails: in a 512 x 512 field of vectors (2, 0), a stroke of
    length 0.1 ending at the centre with radius 0.1 leaves the corner cell,
    which is outside the footprint, at length 2. *)
Lemma comb_leaves_long_vector :
  (0 < 1 / 10)%R
  ∧ (1 / 10000 < vlength (vsub centreCur centrePrev))%R
  ∧ vlength (data (comb 512 512 longField centrePrev centreCur (1 / 10)%R)
               !!! cellIndex 512 0 0) = 2%R.
Proof.
  split; [lra|]. split; [unfold centreCur, centrePrev; real_ops; apply lt_sqrt; lra|].
  assert (Hg : in_grid 512 512 0 0) by (unfold in_grid; lia).
  rewrite comb_outside; [| apply dims_ok_512 | apply constField_wf | done |].
  - unfold longField. rewrite constField_lookup by (done || apply dims_ok_512).
    real_ops. replace (2 * 2 + 0 * 0)%R with (2 * 2)%R by ring.
    apply sqrt_square. lra.
  - apply footprint_false. left. rewrite absDeltaOf_real. simpl.
    apply Rleb_false. rewrite Rabs_left; lra.
Qed.

(** ** The dampen brush *)

(** C6. On the reals and for a positive radius, [dampen] lengthens no cell.
    Inside the footprint the length is multiplied by [dampFactor], which is
    at least 0.8, grows with the distance of the cell from the brush centre
    and is 0.8 at the centre itself; a cell on the edge of the footprint, at
    distance exactly the radius along one axis, keeps its vector. *)
Theorem dampen_never_grows (width height : Z) (vf : VectorField R)
  (brushPos : Vec2 R) (brushRadius : R) (x y : Z) :
  dims_ok width height →
  field_wf width height vf →
  in_grid width height x y →
  (0 < brushRadius)%R →
  let v := data vf !!! cellIndex width x y in
  let v' := data (dampen width height vf brushPos brushRadius) !!! cellIndex width x y in
  let k := dampFactor width height brushPos brushRadius x y in
  (vlength v' <= vlength v)%R
  ∧ (footprint width height brushPos brushRadius x y = true →
     vlength v' = (k * vlength v)%R ∧ (8 / 10 <= k <= 1)%R)
  ∧ (∀ x2 y2,
       (centreDistance width height brushPos x y
        <= centreDistance width height brushPos x2 y2)%R →
       (k <= dampFactor width height brushPos brushRadius x2 y2)%R)
  ∧ (centreDistance width height brushPos x y = 0%R → k = (8 / 10)%R)
  ∧ (Vec2.x (absDeltaOf width height brushPos x y) = brushRadius
     ∨ Vec2.y (absDeltaOf width height brushPos x y) = brushRadius →
     v' = v).
Proof.
  intros Hdims Hwf Hg Hr v v' k. subst v v' k.
  split; [by apply dampen_cell_length|].
  split.
  { intros Hin. rewrite dampen_cell_real, Hin by done.
    pose proof (dampFactor_range width height brushPos brushRadius x y) as Hk.
    split; [|done]. rewrite vlength_vscale, Rabs_right by lra. done. }
  split; [intros x2 y2 Hd; by apply dampFactor_mono|].
  split; [intros Hd; by apply dampFactor_centre|].
  intros Hedge. rewrite dampen_cell_real by done.
  destruct (footprint _ _ _ _ _ _); [|done].
  rewrite dampFactor_far; [apply vscale_one|done|].
  pose proof (centreDistance_ge_x width height brushPos x y).
  pose proof (centreDistance_ge_y width height brushPos x y).
  destruct Hedge; lra.
Qed.

Lemma dampen_never_grows_witness :
  (vlength (data (dampen 512 512 longField centreCur (1 / 10)%R) !!! cellIndex 512 256 256)
   <= vlength (data longField !!! cellIndex 512 256 256))%R.
Proof.
  refine (proj1 (dampen_never_grows 512 512 longField centreCur (1 / 10)%R 256 256
                   dims_ok_512 (constField_wf 512 512 _) _ _)).
  - unfold in_grid. lia.
  - lra.
Defined.

(** C10. On the reals and for a positive radius, [dampen] replaces the
    vector [v] of a cell inside the footprint by [v] times the scalar
    [0.8 + 0.2 * forceLen].  The scalar lies in [0.8, 1]: the vector keeps
    its direction and loses at most a fifth of its length. *)
Theorem dampen_scales_cell (width height : Z) (vf : VectorField R)
  (brushPos : Vec2 R) (brushRadius : R) (x y : Z) :
  dims_ok width height →
  field_wf width height vf →
  in_grid width height x y →
  (0 < brushRadius)%R →
  footprint width height brushPos brushRadius x y = true →
  let v := data vf !!! cellIndex width x y in
  let v' := data (dampen width height vf brushPos brushRadius) !!! cellIndex width x y in
  let k := (8 / 10 + 2 / 10 * forceLenOf width height brushPos brushRadius x y)%R in
  v' = vscale v k
  ∧ (8 / 10 <= k <= 1)%R
  ∧ vlength v' = (k * vlength v)%R
  ∧ (8 / 10 * vlength v <= vlength v')%R.
Proof.
  intros Hdims Hwf Hg Hr Hin v v' k. subst v v' k.
  pose proof (dampFactor_range width height brushPos brushRadius x y) as Hk.
  unfold dampFactor in Hk.
  rewrite dampen_cell_real, Hin by done. fold (dampFactor width height brushPos brushRadius x y).
  unfold dampFactor.
  split; [done|]. split; [done|].
  rewrite vlength_vscale, Rabs_right by lra. split; [done|].
  pose proof (vlength_nonneg (data vf !!! cellIndex width x y)). nra.
Qed.

Lemma centre_cell_inside : footprint 512 512 centreCur (1 / 10)%R 256 256 = true.
Proof.
  apply footprint_real. rewrite absDeltaOf_real. simpl.
  split; apply Rabs_le; lra.
Qed.

Lemma dampen_scales_cell_witness :
  data (dampen 512 512 longField centreCur (1 / 10)%R) !!! cellIndex 512 256 256
  = vscale (data longField !!! cellIndex 512 256 256)
      (8 / 10 + 2 / 10 * forceLenOf 512 512 centreCur (1 / 10) 256 256)%R.
Proof.
  refine (proj1 (dampen_scales_cell 512 512 longField centreCur (1 / 10)%R 256 256
                   dims_ok_512 (constField_wf 512 512 _) _ _ centre_cell_inside)).
  - unfold in_grid. lia.
  - lra.
Defined.

Lemma brushes_keep_cells_outside_footprint_witness :
  Forall (λ c : Z * Z,
    data (comb 4 4 scenarioField scenarioPrev scenarioCur scenarioRadius)
      !!! cellIndex 4 c.1 c.2 = Vec2.make 0%R 0%R) scenarioOutside.
Proof.
  assert (Hcell : ∀ x y, in_grid 4 4 x y →
    (scenarioRadius < Rabs (IZR x / 4 - 3 / 10))%R
    ∨ (scenarioRadius < Rabs (IZR y / 4 - 1 / 10))%R →
    data (comb 4 4 scenarioField scenarioPrev scenarioCur scenarioRadius)
      !!! cellIndex 4 x y = Vec2.make 0%R 0%R).
  { intros x y Hg Hout.
    rewrite (proj1 (brushes_keep_cells_outside_footprint 4 4 scenarioField
                      scenarioPrev scenarioCur scenarioRadius x y dims_ok_4
                      (constField_wf 4 4 _) Hg
                      ltac:(rewrite absDeltaOf_real; cbn [Vec2.x Vec2.y fleb Rops];
                            rewrite !Rleb_false; exact Hout))).
    apply constField_lookup; [apply dims_ok_4|done]. }
  unfold scenarioOutside, scenarioRadius in *.
  repeat apply Forall_cons_2; try apply Forall_nil_2;
    (apply Hcell; [unfold in_grid; simpl; lia|]);
    simpl; unfold Rabs;
    first [ left; destruct (Rcase_abs _); lra | right; destruct (Rcase_abs _); lra ].
Defined.

(** ** Sampling *)

Lemma sample_cell {F : Type} `{FloatOps F} (width height : Z) (vf : VectorField F) uv :
  sample width height vf uv
  = data vf !!! cellIndex width (sampleCell width height uv).1
                               (sampleCell width height uv).2.
Proof. reflexivity. Qed.

Lemma sampleCell_in_grid {F : Type} `{FloatOps F} (width height : Z) (uv : Vec2 F) :
  0 < width → 0 < height →
  in_grid width height (sampleCell width height uv).1 (sampleCell width height uv).2.
Proof. intros Hw Hh. unfold sampleCell, in_grid. simpl. split; apply Z.mod_pos_bound; lia. Qed.

Lemma sample_constField {F : Type} `{FloatOps F} (width height : Z) (v uv : Vec2 F) :
  dims_ok width height → sample width height (constField width height v) uv = v.
Proof.
  intros Hdims. rewrite sample_cell. apply constField_lookup; [done|].
  destruct Hdims as (Hw & Hh & _). by apply sampleCell_in_grid.
Qed.

Section RealSampling.
Local Open Scope R_scope.

Lemma Rtrunc_nonneg r : 0 <= r → Rtrunc r = Int_part r.
Proof. intros Hr. unfold Rtrunc. destruct (Rle_dec 0 r); [done|lra]. Qed.

Lemma Int_part_range r : IZR (Int_part r) <= r < IZR (Int_part r) + 1.
Proof. pose proof (base_Int_part r). lra. Qed.

Lemma Int_part_add_IZR r (n : Z) : Int_part (r + IZR n) = (Int_part r + n)%Z.
Proof.
  symmetry. apply Int_part_spec. rewrite plus_IZR.
  pose proof (Int_part_range r). lra.
Qed.

Lemma Int_part_bounds r (n : Z) : 0 <= r → r < IZR n → (0 <= Int_part r < n)%Z.
Proof.
  intros H0 Hn. pose proof (Int_part_range r) as [Hlo Hhi]. split.
  - assert (Hm : IZR (-1) < IZR (Int_part r)) by lra.
    apply lt_IZR in Hm. lia.
  - apply lt_IZR. lra.
Qed.

Lemma to_u32_real r :
  0 <= r → r < IZR (2 ^ 32) → to_u32 (F := R) r = Int_part r.
Proof.
  intros H0 Hn. unfold to_u32, wrap32. cbn [ftrunc Rops].
  rewrite Rtrunc_nonneg by done. apply Z.mod_small.
  by apply Int_part_bounds.
Qed.

(** On non-negative coordinates the cell is found by flooring, and one
    more unit along an axis lands in the same cell. *)
Lemma axis_cell_real (t : R) (n : Z) :
  (0 < n)%Z → 0 <= t → (t + 1) * IZR n < IZR (2 ^ 32) →
  (to_u32 (F := R) (fmul t (fofZ n)) mod n = Int_part (t * IZR n) mod n)%Z
  ∧ (to_u32 (F := R) (fmul (fadd t (fofZ 1)) (fofZ n)) mod n
     = Int_part (t * IZR n) mod n)%Z.
Proof.
  intros Hn Ht Hfit. cbn [fmul fadd fofZ Rops].
  assert (Hn' : 0 < IZR n) by (by apply IZR_lt).
  assert (0 <= t * IZR n) by nra.
  rewrite !to_u32_real by nra. split; [done|].
  replace ((t + 1) * IZR n) with (t * IZR n + IZR n) by ring.
  rewrite Int_part_add_IZR.
  rewrite <- (Z.mul_1_l n) at 2. by rewrite Z.mod_add by lia.
Qed.
End RealSampling.

(** C2, as amended.  On the reals, for a position with non-negative
    coordinates whose scaled coordinates fit in 32 bits: [sample] reads the
    cell [floor(p * (W, H)) mod (W, H)], and the positions one unit further
    along either axis read the same cell. *)
Theorem sample_wraps_nonnegative (width height : Z) (vf : VectorField R) (p : Vec2 R) :
  0 < width → 0 < height →
  (0 <= Vec2.x p)%R → (0 <= Vec2.y p)%R →
  ((Vec2.x p + 1) * IZR width < IZR (2 ^ 32))%R →
  ((Vec2.y p + 1) * IZR height < IZR (2 ^ 32))%R →
  sample width height vf p
  = data vf !!! cellIndex width (Int_part (Vec2.x p * IZR width) mod width)
                               (Int_part (Vec2.y p * IZR height) mod height)
  ∧ sample width height vf (vadd p (Vec2.make 1%R 0%R)) = sample width height vf p
  ∧ sample width height vf (vadd p (Vec2.make 0%R 1%R)) = sample width height vf p.
Proof.
  intros Hw Hh Hx Hy Hfx Hfy.
  destruct (axis_cell_real (Vec2.x p) width Hw Hx Hfx) as [Hx0 Hx1].
  destruct (axis_cell_real (Vec2.y p) height Hh Hy Hfy) as [Hy0 Hy1].
  rewrite !sample_cell. unfold sampleCell, vadd.
  cbn [fst snd Vec2.x Vec2.y fadd fmul fofZ Rops] in *.
  rewrite !Rplus_0_r, !Hx0, !Hy0, !Hx1, !Hy1. done.
Qed.

Lemma sample_wraps_nonnegative_witness :
  sample 512 512 markedField (vadd (Vec2.make (1 / 2) (1 / 2))%R (Vec2.make 1%R 0%R))
  = sample 512 512 markedField (Vec2.make (1 / 2) (1 / 2))%R.
Proof.
  refine (proj1 (proj2 (sample_wraps_nonnegative 512 512 markedField
                          (Vec2.make (1 / 2) (1 / 2))%R _ _ _ _ _ _)));
    try lia; cbn [Vec2.x Vec2.y]; change (2 ^ 32)%Z with 4294967296%Z; lra.
Defined.

Lemma Int_part_eq (r : R) (z : Z) : (IZR z <= r < IZR z + 1)%R → Int_part r = z.
Proof. intros Hr. symmetry. apply Int_part_spec. lra. Qed.

(** C2 as stated fails on a negative coordinate.  The position
    (-1/1024, 0) scales to -0.5, which the cast truncates to cell 0, while
    the position one unit to its right falls in cell 511: in a field where
    the two cells differ, the two samples differ. *)
Lemma sample_negative_position_no_wrap :
  sample 512 512 markedField leftOfOrigin
  ≠ sample 512 512 markedField (vadd leftOfOrigin (Vec2.make 1%R 0%R)).
Proof.
  assert (H0 : Int_part 0 = 0) by (apply Int_part_eq; simpl; lra).
  assert (Hleft : sampleCell 512 512 leftOfOrigin = (0, 0)).
  { unfold sampleCell, leftOfOrigin, to_u32. cbn [Vec2.x Vec2.y fmul fofZ ftrunc Rops].
    unfold Rtrunc. destruct (Rle_dec 0 (- (1 / 1024) * 512)) as [Hle|_]; [lra|].
    destruct (Rle_dec 0 (0 * 512)) as [_|Hn]; [|lra].
    replace (0 * 512)%R with 0%R by ring. rewrite H0.
    replace (- (- (1 / 1024) * 512))%R with (1 / 2)%R by field.
    rewrite (Int_part_eq (1 / 2) 0) by (simpl; lra). reflexivity. }
  assert (Hright : sampleCell 512 512 (vadd leftOfOrigin (Vec2.make 1%R 0%R)) = (511, 0)).
  { unfold sampleCell, leftOfOrigin, vadd, to_u32.
    cbn [Vec2.x Vec2.y fadd fmul fofZ ftrunc Rops].
    unfold Rtrunc. destruct (Rle_dec 0 ((- (1 / 1024) + 1) * 512)) as [_|Hn]; [|lra].
    destruct (Rle_dec 0 ((0 + 0) * 512)) as [_|Hn]; [|lra].
    replace ((0 + 0) * 512)%R with 0%R by ring. rewrite H0.
    rewrite (Int_part_eq ((- (1 / 1024) + 1) * 512) 511) by (simpl; lra).
    reflexivity. }
  rewrite !sample_cell, Hleft, Hright. cbn [fst snd].
  assert (Hi0 : cellIndex 512 0 0 = 0%nat) by (vm_compute; reflexivity).
  assert (Hi1 : cellIndex 512 511 0 = 511%nat) by (vm_compute; reflexivity).
  assert (Hn : Z.to_nat (count 512 512) = Z.to_nat 262144) by reflexivity.
  rewrite Hi0, Hi1. unfold markedField, set_data, constField. cbn [data].
  rewrite Hn.
  rewrite list_lookup_total_insert_ne by done.
  rewrite list_lookup_total_insert_eq by (rewrite length_replicate; lia).
  rewrite lookup_total_replicate_2 by lia.
  intros Heq. apply (f_equal Vec2.x) in Heq. simpl in Heq. lra.
Qed.

(** In binary32 the same position reads the same two cells. *)
Lemma sample_negative_position_b32 :
  sampleCell 512 512 leftOfOrigin32 = (0, 0)
  ∧ sampleCell 512 512 (vadd leftOfOrigin32 (Vec2.make (fofZ 1) (fofZ 0))) = (511, 0).
Proof. split; vm_compute; reflexivity. Qed.

(** In binary32 the unit translation is itself rounded: [belowBorder32]
    lies inside the unit square in cell 0 of its row, and adding 1 to its
    first coordinate gives a position in cell 1. *)
Lemma sample_translation_rounds_b32 :
  insideUnitSquare belowBorder32 = true
  ∧ sampleCell 512 512 belowBorder32 = (0, 256)
  ∧ sampleCell 512 512 (vadd belowBorder32 (Vec2.make (fofZ 1) (fofZ 0))) = (1, 256).
Proof. repeat split; vm_compute; reflexivity. Qed.

(** ** The force on a particle *)

Lemma particleForce_outside {F : Type} `{FloatOps F} (width height : Z)
  (vf : VectorField F) (q : Vec2 F) :
  insideUnitSquare q = false → particleForce width height vf q = vsplat (fofZ 0).
Proof. unfold particleForce. by intros ->. Qed.

Lemma insideUnitSquare_real (q : Vec2 R) :
  insideUnitSquare q = true
  ↔ (0 < Vec2.x q < 1)%R ∧ (0 < Vec2.y q < 1)%R.
Proof.
  unfold insideUnitSquare, fgtb. cbn [fltb fofZ Rops].
  rewrite !andb_true_iff, !Rltb_true. tauto.
Qed.

(** In binary32 too the border position (1.0f, 0.5f) fails the test and
    gets the zero force, whatever the field. *)
Lemma force_zero_on_border_b32 (width height : Z) (vf : VectorField spec_float) :
  particleForce width height vf (Vec2.make (fofZ 1) (flit 1 2))
  = Vec2.make (S754_zero false) (S754_zero false).
Proof. rewrite particleForce_outside; [done|]. vm_compute. reflexivity. Qed.

(** ** The particle loop *)

Lemma for_u32_step {S : Type} (k : Z) (body : Z → S → S) (s : S) :
  0 ≤ k → for_u32 (k + 1) body s = body k (for_u32 k body s).
Proof.
  intros Hk. rewrite <- (Z2Nat.id k) at 1 2 by done.
  replace (Z.of_nat (Z.to_nat k) + 1) with (Z.of_nat (Datatypes.S (Z.to_nat k))) by lia.
  rewrite for_u32_succ. by rewrite Z2Nat.id.
Qed.

Section ParticleLoop.
Context {F : Type} `{FloatOps F} {Rand : Type} `{RandOps F Rand}.
Variables width height pcount : Z.

(** One pass of the body on particle [i], read at index [i]. *)
Lemma updateParticle_at (vf : VectorField F) (p : Particles F) (rng : Rand) (i : Z) :
  particles_wf pcount p → 0 ≤ i < pcount →
  let n := Z.to_nat i in
  let p' := (updateParticle width height vf i (p, rng)).1 in
  (life p !!! n ≠ 0 →
     pos p' !!! n = vadd (pos p !!! n) (vel p !!! n)
     ∧ vel p' !!! n = vadd (vscale (vel p !!! n) friction)
                           (particleForce width height vf (pos p !!! n))
     ∧ life p' !!! n = wrap32 (life p !!! n - 1))
  ∧ (life p !!! n = 0 →
     pos p' !!! n = (randomPoint rng).1
     ∧ vel p' !!! n = vscale (sample width height vf (randomPoint rng).1) forceScale
     ∧ life p' !!! n = wrap32 (0 + (getUint (randomPoint rng).2 0 80).1)).
Proof.
  intros (Hp & Hv & Hl) Hi n p'. subst p'.
  assert (Hn : (n < Z.to_nat pcount)%nat) by (subst n; lia).
  assert (Hread : ∀ (A : Type) `{!Inhabited A} (l : list A) (a : A),
            length l = Z.to_nat pcount → <[n := a]> l !!! n = a).
  { intros A ? l a Hlen. apply list_lookup_total_insert_eq. by rewrite Hlen. }
  unfold updateParticle, set_pos, set_vel, set_life. cbn [pos vel life].
  fold n. rewrite !Hread by (by rewrite ?length_insert). split.
  - intros Hlife. apply Z.eqb_neq in Hlife. rewrite Hlife.
    cbn [fst pos vel life]. by rewrite !Hread by (by rewrite ?length_insert).
  - intros Hlife. rewrite Hlife. rewrite Z.eqb_refl.
    destruct (randomPoint rng) as [pt r1]. cbn [fst snd].
    destruct (getUint r1 0 80) as [u r2]. cbn [fst snd pos vel life].
    by rewrite !Hread by (by rewrite ?length_insert).
Qed.

(** The body keeps the three lengths and every other particle. *)
Lemma updateParticle_other (vf : VectorField F) (p : Particles F) (rng : Rand) (i : Z) :
  let p' := (updateParticle width height vf i (p, rng)).1 in
  (length (pos p') = length (pos p)
   ∧ length (vel p') = length (vel p)
   ∧ length (life p') = length (life p))
  ∧ ∀ m : nat, m ≠ Z.to_nat i →
      pos p' !!! m = pos p !!! m ∧ vel p' !!! m = vel p !!! m
      ∧ life p' !!! m = life p !!! m.
Proof.
  intros p'. subst p'. unfold updateParticle, set_pos, set_vel, set_life.
  cbn [pos vel life].
  destruct (_ =? 0).
  - destruct (randomPoint rng) as [pt r1]. cbn [pos vel life].
    destruct (getUint r1 0 80) as [u r2]. cbn [fst pos vel life].
    split; [by rewrite !length_insert|].
    intros m Hm. by rewrite !list_lookup_total_insert_ne.
  - cbn [fst pos vel life].
    split; [by rewrite !length_insert|].
    intros m Hm. by rewrite !list_lookup_total_insert_ne.
Qed.

Lemma updateParticle_wf (vf : VectorField F) (st : Particles F * Rand) (i : Z) :
  particles_wf pcount st.1 → particles_wf pcount (updateParticle width height vf i st).1.
Proof.
  destruct st as [p rng]. intros (Hp & Hv & Hl).
  destruct (updateParticle_other vf p rng i) as [(Hp' & Hv' & Hl') _].
  unfold particles_wf. simpl in *. by rewrite Hp', Hv', Hl'.
Qed.

(** The whole loop, read at particle [i]: the particles before [i] leave
    it as it was, the body runs on it with the generator they left, and
    the particles after [i] leave the result alone. *)
Lemma updateParticles_at (vf : VectorField F) (p : Particles F) (rng : Rand) (i : Z) :
  particles_wf pcount p → 0 ≤ i < pcount →
  let n := Z.to_nat i in
  let p' := (updateParticles width height pcount p vf rng).1 in
  let mid := for_u32 i (updateParticle width height vf) (p, rng) in
  particles_wf pcount mid.1
  ∧ (pos mid.1 !!! n = pos p !!! n ∧ vel mid.1 !!! n = vel p !!! n
     ∧ life mid.1 !!! n = life p !!! n)
  ∧ (pos p' !!! n = pos (updateParticle width height vf i mid).1 !!! n
     ∧ vel p' !!! n = vel (updateParticle width height vf i mid).1 !!! n
     ∧ life p' !!! n = life (updateParticle width height vf i mid).1 !!! n).
Proof.
  intros Hwf Hi n p' mid. subst p'. unfold updateParticles.
  pose (same := λ a b : Particles F,
    pos a !!! n = pos b !!! n ∧ vel a !!! n = vel b !!! n
    ∧ life a !!! n = life b !!! n).
  pose (P := λ (k : Z) (st : Particles F * Rand),
    particles_wf pcount st.1
    ∧ (k ≤ i → st = for_u32 k (updateParticle width height vf) (p, rng) ∧ same st.1 p)
    ∧ (i < k → same st.1 (updateParticle width height vf i mid).1)).
  assert (HP : ∀ k, 0 ≤ k ≤ pcount → P k (for_u32 k (updateParticle width height vf) (p, rng))).
  { intros k Hk. apply for_u32_ind; [lia| |].
    - split; [done|]. split; [|lia]. intros _. rewrite for_u32_nonpos by done.
      split; [done|]. by unfold same.
    - intros j st Hj (Hst & Hle & Hgt). split; [by apply updateParticle_wf|].
      split.
      + intros Hji. destruct Hle as [-> Hsame]; [lia|].
        split; [by rewrite for_u32_step by lia|].
        destruct (for_u32 j (updateParticle width height vf) (p, rng)) as [q r] eqn:Hq.
        destruct (updateParticle_other vf q r j) as [_ Hoth].
        destruct (Hoth n) as (H1 & H2 & H3); [subst n; lia|].
        destruct Hsame as (S1 & S2 & S3). simpl in *.
        unfold same. by rewrite H1, H2, H3.
      + intros Hij. destruct (decide (j = i)) as [->|Hne].
        * destruct Hle as [-> _]; [lia|]. by unfold same.
        * destruct st as [q r].
          destruct (updateParticle_other vf q r j) as [_ Hoth].
          destruct (Hoth n) as (H1 & H2 & H3); [subst n; lia|].
          destruct Hgt as (S1 & S2 & S3); [lia|]. simpl in *.
          unfold same. by rewrite H1, H2, H3. }
  destruct (HP i) as (Hmid & Hmle & _); [lia|].
  destruct (HP pcount) as (_ & _ & Hend); [lia|].
  split; [done|]. split; [apply Hmle; lia|]. apply Hend. lia.
Qed.
End ParticleLoop.

(** What one call of [updateParticles] does to particle [i]: the body runs
    on it once, on the values the call started with and with the generator
    the particles before it left. *)
Lemma updateParticles_body {F : Type} `{FloatOps F} {Rand : Type} `{RandOps F Rand}
  (width height pcount : Z) (p : Particles F) (vf : VectorField F) (rng : Rand) (i : Z) :
  particles_wf pcount p → 0 ≤ i < pcount →
  let n := Z.to_nat i in
  let p' := (updateParticles width height pcount p vf rng).1 in
  ∃ q : Particles F,
    particles_wf pcount q
    ∧ (pos q !!! n = pos p !!! n ∧ vel q !!! n = vel p !!! n
       ∧ life q !!! n = life p !!! n)
    ∧ let q' := (updateParticle width height vf i
                   (q, rngAt width height p vf rng i)).1 in
      pos p' !!! n = pos q' !!! n ∧ vel p' !!! n = vel q' !!! n
      ∧ life p' !!! n = life q' !!! n.
Proof.
  intros Hwf Hi n p'. subst p'.
  destruct (updateParticles_at width height pcount vf p rng i Hwf Hi)
    as (Hmid & Hsame & Hend).
  unfold rngAt.
  destruct (for_u32 i (updateParticle width height vf) (p, rng)) as [q r].
  exists q. done.
Qed.

(** A particle with lifetime left is integrated and its lifetime
    decremented. *)
Lemma updateParticles_alive {F : Type} `{FloatOps F} {Rand : Type} `{RandOps F Rand}
  (width height pcount : Z) (p : Particles F) (vf : VectorField F) (rng : Rand) (i : Z) :
  particles_wf pcount p → 0 ≤ i < pcount →
  let n := Z.to_nat i in
  let p' := (updateParticles width height pcount p vf rng).1 in
  life p !!! n ≠ 0 →
  pos p' !!! n = vadd (pos p !!! n) (vel p !!! n)
  ∧ vel p' !!! n = vadd (vscale (vel p !!! n) friction)
                        (particleForce width height vf (pos p !!! n))
  ∧ life p' !!! n = wrap32 (life p !!! n - 1).
Proof.
  intros Hwf Hi n p' Hlife. subst p'.
  destruct (updateParticles_body width height pcount p vf rng i Hwf Hi)
    as (q & Hq & (M1 & M2 & M3) & (E1 & E2 & E3)).
  fold n in M1, M2, M3, E1, E2, E3.
  destruct (updateParticle_at width height pcount vf q
              (rngAt width height p vf rng i) i Hq Hi) as [Hlive _].
  fold n in Hlive. rewrite M1, M2, M3 in Hlive. rewrite E1, E2, E3. by apply Hlive.
Qed.

(** A particle with lifetime 0 is reseeded from the generator that the
    particles before it left. *)
Lemma updateParticles_expired {F : Type} `{FloatOps F} {Rand : Type} `{RandOps F Rand}
  (width height pcount : Z) (p : Particles F) (vf : VectorField F) (rng : Rand) (i : Z) :
  particles_wf pcount p → 0 ≤ i < pcount →
  let n := Z.to_nat i in
  let p' := (updateParticles width height pcount p vf rng).1 in
  let fresh := randomPoint (rngAt width height p vf rng i) in
  life p !!! n = 0 →
  pos p' !!! n = fresh.1
  ∧ vel p' !!! n = vscale (sample width height vf fresh.1) forceScale
  ∧ life p' !!! n = wrap32 (0 + (getUint fresh.2 0 80).1).
Proof.
  intros Hwf Hi n p' fresh Hlife. subst p' fresh.
  destruct (updateParticles_body width height pcount p vf rng i Hwf Hi)
    as (q & Hq & (M1 & M2 & M3) & (E1 & E2 & E3)).
  fold n in M1, M2, M3, E1, E2, E3.
  destruct (updateParticle_at width height pcount vf q
              (rngAt width height p vf rng i) i Hq Hi) as [_ Hdead].
  fold n in Hdead. rewrite M3 in Hdead. rewrite E1, E2, E3. by apply Hdead.
Qed.

(** C3. For every carrier and every generator, one call of
    [updateParticles] leaves a particle whose lifetime is not 0 at its old
    position plus its old velocity, with velocity the old one times the
    friction 0.1 plus the force computed at the old position, and with its
    lifetime one less.  A particle whose lifetime is 0 is reseeded after
    that: its position is the freshly drawn point alone and its velocity
    the field there times 0.002, so nothing of the integration is left. *)
Theorem updateParticles_order {F : Type} `{FloatOps F} {Rand : Type} `{RandOps F Rand}
  (width height pcount : Z) (p : Particles F) (vf : VectorField F) (rng : Rand) (i : Z) :
  particles_wf pcount p → 0 ≤ i < pcount →
  let n := Z.to_nat i in
  let p' := (updateParticles width height pcount p vf rng).1 in
  let force := particleForce width height vf (pos p !!! n) in
  (life p !!! n ≠ 0 →
     pos p' !!! n = vadd (pos p !!! n) (vel p !!! n)
     ∧ vel p' !!! n = vadd (vscale (vel p !!! n) (flit 1 10)) force
     ∧ life p' !!! n = wrap32 (life p !!! n - 1))
  ∧ (life p !!! n = 0 →
     let fresh := randomPoint (rngAt width height p vf rng i) in
     pos p' !!! n = fresh.1
     ∧ vel p' !!! n = vscale (sample width height vf fresh.1) (flit 2 1000)
     ∧ life p' !!! n = wrap32 (0 + (getUint fresh.2 0 80).1)).
Proof.
  intros Hwf Hi n p' force. subst p' force. split.
  - intros Hlife.
    destruct (updateParticles_alive width height pcount p vf rng i Hwf Hi Hlife)
      as (Hpos & Hvel & Hlife').
    fold n in Hpos, Hvel, Hlife'. by rewrite Hpos, Hvel, Hlife'.
  - intros Hlife fresh. subst fresh.
    destruct (updateParticles_expired width height pcount p vf rng i Hwf Hi Hlife)
      as (Hpos & Hvel & Hlife').
    fold n in Hpos, Hvel, Hlife'. by rewrite Hpos, Hvel, Hlife'.
Qed.

Lemma uniformParticles_wf q v l : particles_wf 150000 (uniformParticles q v l).
Proof.
  unfold particles_wf, uniformParticles. cbn [pos vel life].
  by rewrite !length_replicate.
Qed.

Lemma uniformParticles_lookup q v l (n : nat) :
  (n < Z.to_nat 150000)%nat →
  pos (uniformParticles q v l) !!! n = q
  ∧ vel (uniformParticles q v l) !!! n = v
  ∧ life (uniformParticles q v l) !!! n = l.
Proof.
  intros Hn. unfold uniformParticles. cbn [pos vel life].
  by rewrite !lookup_total_replicate_2.
Qed.

Lemma updateParticles_order_witness :
  pos (updateParticles 512 512 150000 driftingParticles leftwardField 0).1 !!! 7%nat
  = vadd (Vec2.make (1 / 2) (1 / 2))%R (Vec2.make (1 / 100) 0)%R
  ∧ life (updateParticles 512 512 150000 driftingParticles leftwardField 0).1 !!! 7%nat
  = 4.
Proof.
  destruct (uniformParticles_lookup (Vec2.make (1 / 2) (1 / 2))%R
              (Vec2.make (1 / 100) 0)%R 5 7) as (Hq & Hv & Hl); [lia|].
  destruct (updateParticles_order 512 512 150000 driftingParticles leftwardField 0 7
              (uniformParticles_wf _ _ _) ltac:(lia)) as [Hlive _].
  change (Z.to_nat 7) with 7%nat in Hlive. unfold driftingParticles in *.
  rewrite Hq, Hv, Hl in Hlive. destruct Hlive as (Hp' & _ & Hl'); [done|].
  split; [exact Hp'|]. rewrite Hl'. reflexivity.
Defined.

(** ** The test guarding the force, inside a step *)

(** C4. On the reals: the force computed for a particle is not zero only
    if its position is strictly inside the unit square, and on the border,
    at (1, 0.5), it is zero.  In a call of [updateParticles], a particle
    with lifetime left whose position is not strictly inside the unit
    square gets no force: its new velocity is the old one times the
    friction. *)
Theorem force_only_inside_unit_square {Rand : Type} `{RandOps R Rand}
  (width height pcount : Z) (vf : VectorField R) (q : Vec2 R)
  (p : Particles R) (rng : Rand) (i : Z) :
  (particleForce width height vf q ≠ Vec2.make 0%R 0%R →
   (0 < Vec2.x q < 1)%R ∧ (0 < Vec2.y q < 1)%R)
  ∧ particleForce width height vf (Vec2.make 1 (1 / 2))%R = Vec2.make 0%R 0%R
  ∧ (particles_wf pcount p → 0 ≤ i < pcount →
     let n := Z.to_nat i in
     life p !!! n ≠ 0 →
     ¬ ((0 < Vec2.x (pos p !!! n) < 1)%R ∧ (0 < Vec2.y (pos p !!! n) < 1)%R) →
     vel (updateParticles width height pcount p vf rng).1 !!! n
     = vscale (vel p !!! n) (1 / 10)%R).
Proof.
  split; [|split].
  - intros Hforce. apply insideUnitSquare_real.
    destruct (insideUnitSquare q) eqn:Hin; [done|].
    exfalso. apply Hforce. by rewrite particleForce_outside.
  - rewrite particleForce_outside; [done|].
    destruct (insideUnitSquare _) eqn:Hin; [|done].
    apply insideUnitSquare_real in Hin. simpl in Hin. lra.
  - intros Hwf Hi n Hlife Hout.
    destruct (updateParticles_alive width height pcount p vf rng i Hwf Hi Hlife)
      as (_ & Hv & _).
    fold n in Hv. rewrite Hv.
    rewrite particleForce_outside.
    + unfold friction. destruct (vel p !!! n) as [a b]. real_ops.
      by rewrite !Rplus_0_r.
    + destruct (insideUnitSquare _) eqn:Hin; [|done].
      apply insideUnitSquare_real in Hin. done.
Qed.

Lemma force_only_inside_unit_square_witness :
  (0 < 1 / 2 < 1)%R ∧ (0 < 1 / 2 < 1)%R.
Proof.
  refine (proj1 (force_only_inside_unit_square 512 512 150000 longField
                   (Vec2.make (1 / 2) (1 / 2))%R driftingParticles 0%Z 7) _).
  unfold particleForce.
  replace (insideUnitSquare _) with true
    by (symmetry; apply insideUnitSquare_real; simpl; lra).
  unfold longField. rewrite sample_constField by apply dims_ok_512.
  unfold forceScale. real_ops.
  intros Heq. apply (f_equal Vec2.x) in Heq. simpl in Heq. lra.
Defined.

(** ** Reseeding *)

Lemma wrap32_small (z : Z) : 0 ≤ z < 2 ^ 32 → wrap32 z = z.
Proof. intros Hz. unfold wrap32. by apply Z.mod_small. Qed.

(** C5, as amended.  On the reals, with a generator that draws floats and
    integers from the closed-open ranges it is asked for: one call of
    [updateParticles] moves a particle whose lifetime is 0 to a position in
    [0,1) x [0,1), sets its velocity to the field sampled there times 0.002
    (whatever the sign of its components) and its lifetime to a value in
    [0,80); a particle whose lifetime is not 0 has it decremented by 1. *)
Theorem updateParticles_reseeds {Rand : Type} `{RandOps R Rand}
  (width height pcount : Z) (p : Particles R) (vf : VectorField R) (rng : Rand) (i : Z) :
  (∀ s lo hi, (lo < hi)%R → (lo <= (getFloat s lo hi).1 < hi)%R) →
  (∀ s lo hi, lo < hi → lo ≤ (getUint s lo hi).1 < hi) →
  particles_wf pcount p → 0 ≤ i < pcount →
  let n := Z.to_nat i in
  let p' := (updateParticles width height pcount p vf rng).1 in
  0 ≤ life p !!! n < 2 ^ 32 →
  (life p !!! n = 0 →
     (0 <= Vec2.x (pos p' !!! n) < 1)%R ∧ (0 <= Vec2.y (pos p' !!! n) < 1)%R
     ∧ vel p' !!! n = vscale (sample width height vf (pos p' !!! n)) (2 / 1000)%R
     ∧ 0 ≤ life p' !!! n < 80)
  ∧ (life p !!! n ≠ 0 → life p' !!! n = life p !!! n - 1).
Proof.
  intros Hfloat Huint Hwf Hi n p' Hlife. subst p'.
  split.
  - intros Hzero.
    destruct (updateParticles_expired width height pcount p vf rng i Hwf Hi Hzero)
      as (Hp & Hv & Hl).
    fold n in Hp, Hv, Hl. rewrite Hv, Hl, Hp. unfold randomPoint. cbn [fofZ Rops].
    pose proof (Hfloat (rngAt width height p vf rng i) 0%R 1%R ltac:(lra)) as Hx.
    destruct (getFloat (rngAt width height p vf rng i) 0%R 1%R) as [fx r1].
    pose proof (Hfloat r1 0%R 1%R ltac:(lra)) as Hy.
    destruct (getFloat r1 0%R 1%R) as [fy r2]. cbn [fst snd Vec2.x Vec2.y] in *.
    pose proof (Huint r2 0 80 ltac:(lia)) as Hu.
    split; [done|]. split; [done|]. split; [done|].
    rewrite wrap32_small by lia. lia.
  - intros Hnz.
    destruct (updateParticles_alive width height pcount p vf rng i Hwf Hi Hnz)
      as (_ & _ & Hl).
    fold n in Hl. rewrite Hl. apply wrap32_small. lia.
Qed.

Lemma lcg_getFloat_range (s : Z) (lo hi : R) :
  (lo < hi)%R → (lo <= (getFloat s lo hi).1 < hi)%R.
Proof.
  intros Hlt. cbn [getFloat lcg fst].
  assert (Hm : 0 ≤ lcgNext s mod 65536 < 65536) by (apply Z.mod_pos_bound; lia).
  assert (H0 : (0 <= IZR (lcgNext s mod 65536))%R) by (apply IZR_le; lia).
  assert (H1 : (IZR (lcgNext s mod 65536) <= 65535)%R) by (apply IZR_le; lia).
  set (m := IZR (lcgNext s mod 65536)) in *.
  assert ((0 <= m / 65536 < 1)%R) by lra.
  nra.
Qed.

Lemma lcg_getUint_range (s lo hi : Z) : lo < hi → lo ≤ (getUint s lo hi).1 < hi.
Proof.
  intros Hlt. cbn [getUint lcg fst].
  pose proof (Z.mod_pos_bound (lcgNext s) (hi - lo)). lia.
Qed.

Lemma updateParticles_reseeds_witness :
  let p' := (updateParticles 512 512 150000 expiredParticles leftwardField 0).1 in
  (0 <= Vec2.x (pos p' !!! 7%nat) < 1)%R ∧ (0 <= Vec2.y (pos p' !!! 7%nat) < 1)%R
  ∧ vel p' !!! 7%nat = vscale (sample 512 512 leftwardField (pos p' !!! 7%nat)) (2 / 1000)%R
  ∧ 0 ≤ life p' !!! 7%nat < 80.
Proof.
  destruct (uniformParticles_lookup (Vec2.make (1 / 2) (1 / 2))%R
              (Vec2.make 0%R 0%R) 0 7) as (_ & _ & Hl); [lia|].
  refine (proj1 (updateParticles_reseeds 512 512 150000 expiredParticles leftwardField
                   0 7 lcg_getFloat_range lcg_getUint_range
                   (uniformParticles_wf _ _ _) _ _) _).
  - lia.
  - change (Z.to_nat 7) with 7%nat. unfold expiredParticles. rewrite Hl. lia.
  - exact Hl.
Defined.

(** C5 as stated fails on the sign of the velocity: where the field points
    left, the particle reseeded by one call gets a velocity whose first
    component is negative. *)
Lemma reseeded_velocity_negative :
  life expiredParticles !!! 7%nat = 0
  ∧ (Vec2.x (vel (updateParticles 512 512 150000 expiredParticles leftwardField 0%Z).1
                !!! 7%nat) < 0)%R.
Proof.
  destruct (uniformParticles_lookup (Vec2.make (1 / 2) (1 / 2))%R
              (Vec2.make 0%R 0%R) 0 7) as (_ & _ & Hl); [lia|].
  split; [exact Hl|].
  destruct (updateParticles_expired 512 512 150000 expiredParticles leftwardField 0 7
              (uniformParticles_wf _ _ _) ltac:(lia) Hl) as (_ & Hv & _).
  change (Z.to_nat 7) with 7%nat in Hv. rewrite Hv.
  unfold leftwardField. rewrite sample_constField by apply dims_ok_512.
  unfold forceScale. real_ops. lra.
Qed.

(** ** The brush radius across frames *)

Section Driver.
Context {Rand : Type} `{RandOps R Rand}.
Variables width height pcount : Z.
Local Open Scope R_scope.

Lemma clamp_range (v lo hi : R) : lo <= hi → lo <= clamp v lo hi <= hi.
Proof.
  intros Hle. real_ops. unfold Rltb.
  repeat destruct (Rlt_dec _ _); lra.
Qed.

Lemma updateRadius_range (r : R) (wheel wheelPrev : Z) :
  1 / 100 <= r <= 1 / 2 →
  1 / 100 <= updateRadius r wheel wheelPrev <= 1 / 2.
Proof.
  intros Hr. unfold updateRadius. cbv zeta.
  destruct (negb _); [|done].
  unfold flit. cbn [fofZ fdiv Rops]. apply clamp_range. lra.
Qed.

Lemma update_radius (st : State) (fr : Frame) :
  brushRadius (update width height pcount st fr)
  = updateRadius (brushRadius st) (wheelV fr) (mouseWheel st).
Proof. unfold update. cbv zeta. by destruct (updateParticles _ _ _ _ _ _). Qed.

Lemma startup_radius (seed : Rand) :
  brushRadius (startup width height pcount seed) = 1 / 10.
Proof. unfold startup. cbv zeta. by destruct (initParticles _ _ _). Qed.

End Driver.

(** C9. On the reals, whatever the generator, the grid and the frames
    (mouse positions, wheel counters, buttons, clock readings): after any
    run of [update] from the state [startup] builds, whose radius is 0.1,
    the brush radius lies in [0.01, 0.5]. *)
Theorem radius_stays_clamped {Rand : Type} `{RandOps R Rand}
  (width height pcount : Z) (seed : Rand) (frames : list Frame) :
  (1 / 100 <= brushRadius (run width height pcount
                             (startup width height pcount seed) frames) <= 1 / 2)%R.
Proof.
  assert (Hrun : ∀ st : State,
    (1 / 100 <= brushRadius st <= 1 / 2)%R →
    (1 / 100 <= brushRadius (run width height pcount st frames) <= 1 / 2)%R).
  { unfold run. induction frames as [|fr frs IH]; intros st Hst; [done|].
    simpl. apply IH. rewrite update_radius. by apply updateRadius_range. }
  apply Hrun. rewrite startup_radius. lra.
Qed.

(** ** The same facts in binary32 *)

(** [dampen] runs in binary32: the centre cell (1, 1) of [unitField32]
    becomes (0.8f, 0) and the fifteen other cells, on the edge of the
    footprint or outside it, keep (1, 0) bit for bit. *)
Lemma dampen_b32_4x4 :
  data (dampen 4 4 unitField32 quarter32 (flit 1 4))
  = <[5%nat := Vec2.make (S754_finite false 13421773 (-24)) (S754_zero false)]>
      (data unitField32).
Proof. vm_compute. reflexivity. Qed.

(** The cells outside the footprint of the 4 x 4 scenario stay zero in
    binary32 as well, whatever [pow] returns. *)
Lemma scenario_outside_cells_b32 `{PowOp spec_float} :
  Forall (λ c : Z * Z,
    data (comb 4 4 scenarioField32 scenarioPrev32 scenarioCur32 scenarioRadius32)
      !!! cellIndex 4 c.1 c.2 = zero32) scenarioOutside.
Proof.
  assert (Hcell : ∀ x y, in_grid 4 4 x y →
    footprint 4 4 scenarioCur32 scenarioRadius32 x y = false →
    data (comb 4 4 scenarioField32 scenarioPrev32 scenarioCur32 scenarioRadius32)
      !!! cellIndex 4 x y = zero32).
  { intros x y Hg Hout.
    rewrite comb_outside; [|apply dims_ok_4|apply constField_wf|done|done].
    apply constField_lookup; [apply dims_ok_4|done]. }
  unfold scenarioOutside.
  repeat apply Forall_cons_2; try apply Forall_nil_2;
    (apply Hcell; [unfold in_grid; simpl; lia|vm_compute; reflexivity]).
Qed.

Lemma SFsub_diag (f : spec_float) :
  b32_finite f = true → SFsub b32_prec b32_emax f f = S754_zero false.
Proof.
  destruct f as [[]| | |s m e]; try done. intros _.
  unfold SFsub. rewrite Z.sub_diag. reflexivity.
Qed.

(** [Comb(p, p, r)] changes nothing in binary32 either, for a finite [p]. *)
Lemma comb_same_point_b32 `{PowOp spec_float} (width height : Z)
  (vf : VectorField spec_float) (p : Vec2 spec_float) (r : spec_float) :
  b32_finite (Vec2.x p) = true → b32_finite (Vec2.y p) = true →
  comb width height vf p p r = vf.
Proof.
  intros Hx Hy. apply comb_short_stroke.
  unfold vsub. cbn [fsub b32]. rewrite !SFsub_diag by done.
  vm_compute. reflexivity.
Qed.

Lemma SFcompare_antisym (a b : spec_float) :
  SFcompare b a = option_map CompOpp (SFcompare a b).
Proof.
  destruct a as [[]|[]| |sa ma ea], b as [[]|[]| |sb mb eb]; try reflexivity;
    try (destruct sa; reflexivity); try (destruct sb; reflexivity).
  pose proof (Pos.compare_cont_antisym ma mb Eq) as Hm. simpl in Hm.
  destruct sa, sb; simpl; try reflexivity;
    rewrite (Z.compare_antisym ea eb); destruct (ea ?= eb); simpl;
    try reflexivity; rewrite <- Hm;
    by destruct (Pos.compare_cont Eq ma mb).
Qed.

Lemma SFltb_leb (a b : spec_float) : SFltb a b = true → SFleb a b = true.
Proof. unfold SFltb, SFleb. by destruct (SFcompare a b) as [[]|]. Qed.

(** Among numbers that compare, "not less" is "greater or equal". *)
Lemma SFltb_false_leb (a b c : spec_float) :
  SFltb a b = false → SFltb a c = true → b32_finite b = true → SFleb b a = true.
Proof.
  unfold SFltb, SFleb. intros Hab Hac Hb. rewrite (SFcompare_antisym a b).
  destruct (SFcompare a b) as [[]|] eqn:E; simpl; try done.
  destruct a, b; simpl in *; done.
Qed.

Section DriverB32.
Context {Rand : Type} `{RandOps spec_float Rand} `{PowOp spec_float}.
Variables width height pcount : Z.

Lemma clamp_range_b32 (v : spec_float) : radius_ok32 (clamp v (flit 1 100) (flit 1 2)).
Proof.
  unfold radius_ok32, clamp, fmin, fmax. cbn [fltb fleb b32].
  set (lo := flit 1 100). set (hi := flit 1 2).
  assert (Hlo : b32_finite lo = true) by reflexivity.
  destruct (SFltb v lo) eqn:E1.
  - replace (SFltb lo hi) with true by (vm_compute; reflexivity).
    split; vm_compute; reflexivity.
  - destruct (SFltb v hi) eqn:E2.
    + split; [by apply (SFltb_false_leb v lo hi)|by apply SFltb_leb].
    + split; vm_compute; reflexivity.
Qed.

Lemma updateRadius_range_b32 (r : spec_float) (wheel wheelPrev : Z) :
  radius_ok32 r → radius_ok32 (updateRadius r wheel wheelPrev).
Proof.
  intros Hr. unfold updateRadius. cbv zeta.
  destruct (negb _); [apply clamp_range_b32|done].
Qed.

(** X21. In binary32, whatever [pow] and the generator return and whatever
    the frames: after any run of [update] from the state of [startup] the
    brush radius is a finite number in [0.01f, 0.5f]; no rounding and no
    wheel count takes it out of that range or turns it into a NaN. *)
Lemma radius_stays_clamped_b32 (seed : Rand) (frames : list Frame) :
  radius_ok32 (brushRadius (run width height pcount
                              (startup width height pcount seed) frames)).
Proof.
  assert (Hrun : ∀ st, radius_ok32 (brushRadius st) →
            radius_ok32 (brushRadius (run width height pcount st frames))).
  { unfold run. induction frames as [|fr frs IH]; intros st Hst; [done|].
    simpl. apply IH. unfold update. cbv zeta.
    destruct (updateParticles _ _ _ _ _ _). cbn [brushRadius].
    by apply updateRadius_range_b32. }
  apply Hrun. unfold startup. cbv zeta. destruct (initParticles _ _ _).
  cbn [brushRadius]. split; vm_compute; reflexivity.
Qed.
End DriverB32.

(** ** The field stays bounded across frames *)

Section ReachableField.
Context {Rand : Type} `{RandOps R Rand}.
Variables width height pcount : Z.
Hypothesis Hdims : dims_ok width height.

Lemma comb_bounded (vf : VectorField R) (brushPrev brushCur : Vec2 R) (r : R) :
  field_wf width height vf → field_bounded width height vf →
  field_bounded width height (comb width height vf brushPrev brushCur r).
Proof.
  intros Hwf Hb x y Hg. rewrite comb_lookup by done.
  destruct (negb _ && _); [apply combCell_bound|by apply Hb].
Qed.

Lemma dampen_bounded (vf : VectorField R) (brushPos : Vec2 R) (r : R) :
  field_wf width height vf → field_bounded width height vf →
  field_bounded width height (dampen width height vf brushPos r).
Proof.
  intros Hwf Hb x y Hg.
  pose proof (dampen_cell_length width height Hdims vf brushPos r x y Hwf Hg).
  specialize (Hb x y Hg). lra.
Qed.

Lemma startup_field (seed : Rand) :
  vectorField (startup width height pcount seed)
  = constField width height (Vec2.make 0%R 0%R).
Proof.
  unfold startup. cbv zeta. destruct (initParticles _ _ _). cbn [vectorField].
  unfold initVectorField, constField. cbn [data]. by rewrite fmap_replicate.
Qed.

Lemma update_field (st : State) (fr : Frame) :
  field_wf width height (vectorField st) →
  field_bounded width height (vectorField st) →
  field_wf width height (vectorField (update width height pcount st fr))
  ∧ field_bounded width height (vectorField (update width height pcount st fr)).
Proof.
  intros Hwf Hb. unfold update. cbv zeta.
  destruct (updateParticles _ _ _ _ _ _). cbn [vectorField].
  destruct (button0 fr && _); [|destruct (button1 fr)].
  - split; [by apply comb_wf|by apply comb_bounded].
  - split; [by apply dampen_wf|by apply dampen_bounded].
  - done.
Qed.

(** X20. On the reals, for a grid that fits [u32]: from the zero field of
    [startup], no run of frames, whatever the strokes, buttons and wheel
    counts, produces a cell longer than 1. *)
Lemma reachable_field_bounded (seed : Rand) (frames : list Frame) :
  field_bounded width height
    (vectorField (run width height pcount (startup width height pcount seed) frames)).
Proof.
  assert (Hrun : ∀ st,
    field_wf width height (vectorField st) ∧ field_bounded width height (vectorField st) →
    field_bounded width height (vectorField (run width height pcount st frames))).
  { unfold run. induction frames as [|fr frs IH]; intros st [Hwf Hb]; [done|].
    simpl. apply IH. by apply update_field. }
  apply Hrun. rewrite startup_field. split; [apply constField_wf|].
  intros x y Hg. rewrite constField_lookup by done. real_ops.
  replace (0 * 0 + 0 * 0)%R with 0%R by ring. rewrite sqrt_0. lra.
Qed.
End ReachableField.

(** * Properties of the rest of the code *)

(** ** Sampling stays inside the array *)

(** X1. For every carrier and every position, also a negative, huge or NaN
    one, [sample] reads a cell of the grid: the index it computes is below
    the size of [data], and the vector it returns is one of the vectors the
    field stores. *)
Theorem sample_reads_inside {F : Type} `{FloatOps F} (width height : Z)
  (vf : VectorField F) (uv : Vec2 F) :
  dims_ok width height → field_wf width height vf →
  let c := sampleCell width height uv in
  in_grid width height c.1 c.2
  ∧ (cellIndex width c.1 c.2 < length (data vf))%nat
  ∧ sample width height vf uv ∈ data vf.
Proof.
  intros Hdims Hwf c. subst c.
  assert (Hg : in_grid width height (sampleCell width height uv).1
                 (sampleCell width height uv).2).
  { destruct Hdims as (Hw & Hh & _). by apply sampleCell_in_grid. }
  assert (Hlt : (cellIndex width (sampleCell width height uv).1
                   (sampleCell width height uv).2 < length (data vf))%nat).
  { rewrite Hwf. by apply cellIndex_lt. }
  split; [done|]. split; [done|].
  rewrite sample_cell. apply list_elem_of_lookup.
  exists (cellIndex width (sampleCell width height uv).1 (sampleCell width height uv).2).
  apply list_lookup_lookup_total_lt. exact Hlt.
Qed.

Lemma sample_reads_inside_witness :
  sample 512 512 (constField 512 512 zero32) nanPos32
  ∈ data (constField 512 512 zero32).
Proof.
  exact (proj2 (proj2 (sample_reads_inside 512 512 (constField 512 512 zero32)
                          nanPos32 dims_ok_512 (constField_wf 512 512 zero32)))).
Defined.

(** X2. [initVectorField] keeps the size of the field and leaves the given
    value in every cell, so that afterwards [sample] returns that value at
    every position. *)
Theorem initVectorField_fills {F : Type} `{FloatOps F} (width height : Z)
  (vf : VectorField F) (value uv : Vec2 F) :
  dims_ok width height → field_wf width height vf →
  field_wf width height (initVectorField vf value)
  ∧ (∀ i, (i < length (data vf))%nat → data (initVectorField vf value) !!! i = value)
  ∧ sample width height (initVectorField vf value) uv = value.
Proof.
  intros Hdims Hwf.
  assert (Hwf' : field_wf width height (initVectorField vf value)).
  { unfold field_wf, initVectorField. cbn [data]. by rewrite length_fmap. }
  assert (Hall : ∀ i, (i < length (data vf))%nat →
            data (initVectorField vf value) !!! i = value).
  { intros i Hi. unfold initVectorField. cbn [data].
    apply list_lookup_total_correct. rewrite list_lookup_fmap.
    destruct (lookup_lt_is_Some_2 (data vf) i Hi) as [w ->]. done. }
  split; [done|]. split; [done|].
  rewrite sample_cell. apply Hall. rewrite Hwf. apply cellIndex_lt; [done|].
  destruct Hdims as (Hw & Hh & _). by apply sampleCell_in_grid.
Qed.

Lemma initVectorField_fills_witness :
  sample 512 512 (initVectorField longField (Vec2.make 0%R 0%R)) leftOfOrigin
  = Vec2.make 0%R 0%R.
Proof.
  exact (proj2 (proj2 (initVectorField_fills 512 512 longField (Vec2.make 0%R 0%R)
                          leftOfOrigin dims_ok_512 (constField_wf 512 512 _)))).
Defined.

(** ** Brushes that touch nothing *)

(** A sweep whose test fails on every cell of the grid returns the field it
    was given. *)
Lemma brushSweep_nothing {F : Type} `{FloatOps F} (width height : Z)
  (inside : Z → Z → bool) (upd : Z → Z → Vec2 F → Vec2 F) (vf : VectorField F) :
  (∀ x y, 0 ≤ x < width → 0 ≤ y < height → inside x y = false) →
  brushSweep width height inside upd vf = vf.
Proof.
  intros Hout. unfold brushSweep.
  destruct (Z_le_gt_dec height 0) as [Hh|Hh]; [by apply for_u32_nonpos|].
  apply (for_u32_ind (λ _ a, a = vf)); [lia|done|].
  intros y a Hy ->.
  destruct (Z_le_gt_dec width 0) as [Hw|Hw]; [by apply for_u32_nonpos|].
  apply (for_u32_ind (λ _ a, a = vf)); [lia|done|].
  intros x a Hx ->. unfold brushCell. by rewrite Hout.
Qed.

Lemma footprint_nan_b32 (width height : Z) (brushPos : Vec2 spec_float)
  (r : spec_float) (x y : Z) :
  Vec2.x brushPos = S754_nan ∨ Vec2.y brushPos = S754_nan ∨ r = S754_nan →
  footprint width height brushPos r x y = false.
Proof.
  assert (Hsub : ∀ a, SFsub b32_prec b32_emax a S754_nan = S754_nan)
    by (by intros [| | |]).
  assert (Hle : ∀ a, SFleb a S754_nan = false) by (by intros [| | |]).
  unfold footprint, absDeltaOf, vsub. cbn [Vec2.x Vec2.y fsub fabs fleb b32].
  intros [-> | [-> | ->]]; rewrite ?Hsub, ?Hle; simpl; rewrite ?andb_false_r; done.
Qed.

(** X3. In binary32, a brush whose position has a NaN coordinate, or whose
    radius is a NaN, changes nothing: [dampen] and [comb] return the field
    they were given, whatever the stroke and whatever [pow] computes. *)
Theorem brushes_ignore_nan_b32 `{PowOp spec_float} (width height : Z)
  (vf : VectorField spec_float) (brushPrev brushPos : Vec2 spec_float)
  (r : spec_float) :
  Vec2.x brushPos = S754_nan ∨ Vec2.y brushPos = S754_nan ∨ r = S754_nan →
  dampen width height vf brushPos r = vf
  ∧ comb width height vf brushPrev brushPos r = vf.
Proof.
  intros Hnan. split.
  - rewrite dampen_sweep. apply brushSweep_nothing.
    intros x y _ _. by apply footprint_nan_b32.
  - rewrite comb_sweep. destruct (fleb _ _); [done|].
    apply brushSweep_nothing. intros x y _ _. by apply footprint_nan_b32.
Qed.

Lemma brushes_ignore_nan_b32_witness :
  dampen 4 4 unitField32 nanPos32 (flit 1 4) = unitField32
  ∧ comb (H0 := powStandIn32) 4 4 unitField32 quarter32 nanPos32 (flit 1 4)
    = unitField32.
Proof.
  apply (brushes_ignore_nan_b32 (H := powStandIn32) 4 4 unitField32 quarter32
           nanPos32 (flit 1 4)).
  left. reflexivity.
Defined.

(** X4. On the reals, a brush of negative radius has an empty footprint:
    [dampen] and [comb] return the field they were given. *)
Theorem brushes_negative_radius (width height : Z) (vf : VectorField R)
  (brushPrev brushPos : Vec2 R) (r : R) :
  (r < 0)%R →
  dampen width height vf brushPos r = vf
  ∧ comb width height vf brushPrev brushPos r = vf.
Proof.
  intros Hr.
  assert (Hout : ∀ x y, footprint width height brushPos r x y = false).
  { intros x y. apply footprint_false. left. rewrite absDeltaOf_real.
    cbn [Vec2.x fleb Rops]. apply Rleb_false.
    pose proof (Rabs_pos (IZR x / IZR width - Vec2.x brushPos)). lra. }
  split.
  - rewrite dampen_sweep. by apply brushSweep_nothing.
  - rewrite comb_sweep. destruct (fleb _ _); [done|]. by apply brushSweep_nothing.
Qed.

Lemma brushes_negative_radius_witness :
  dampen 512 512 longField centreCur (- (1 / 10))%R = longField
  ∧ comb 512 512 longField centrePrev centreCur (- (1 / 10))%R = longField.
Proof.
  apply (brushes_negative_radius 512 512 longField centrePrev centreCur). lra.
Defined.

(** ** Loops that rewrite one entry per round *)

(** A counting loop whose round [j] changes only what is seen at index
    [j]: what is seen at [i] in the end is what round [i] left there, and
    the rounds before [i] did not touch it. *)
Lemma for_u32_at {S A : Type} (view : S → nat → A) (body : Z → S → S)
  (n : Z) (s : S) (i : Z) :
  (∀ j st m, 0 ≤ j < n → m ≠ Z.to_nat j → view (body j st) m = view st m) →
  0 ≤ i < n →
  view (for_u32 i body s) (Z.to_nat i) = view s (Z.to_nat i)
  ∧ view (for_u32 n body s) (Z.to_nat i)
    = view (body i (for_u32 i body s)) (Z.to_nat i).
Proof.
  intros Hlocal Hi. split.
  - apply (for_u32_ind (λ k a, k ≤ i → view a (Z.to_nat i) = view s (Z.to_nat i)));
      [lia|done| |lia].
    intros j a Hj IH Hle. rewrite Hlocal by lia. apply IH. lia.
  - pose (P := λ (k : Z) (a : S),
      (k ≤ i → a = for_u32 k body s)
      ∧ (i < k → view a (Z.to_nat i)
                 = view (body i (for_u32 i body s)) (Z.to_nat i))).
    assert (HP : P n (for_u32 n body s)).
    { apply for_u32_ind; [lia| |].
      - split; [|lia]. intros _. by rewrite for_u32_nonpos.
      - intros j a Hj [Hle Hgt]. split.
        + intros Hji. rewrite Hle by lia. by rewrite for_u32_step by lia.
        + intros Hij. destruct (decide (j = i)) as [->|Hne].
          * by rewrite Hle by lia.
          * rewrite Hlocal by lia. apply Hgt. lia. }
    apply HP. lia.
Qed.

(** ** Fresh particles *)

Section FreshParticles.
Context {F : Type} `{FloatOps F} {Rand : Type} `{RandOps F Rand}.
Variable pcount : Z.

Lemma initParticles_wf (p : Particles F) (rng : Rand) :
  particles_wf pcount p → particles_wf pcount (initParticles pcount p rng).1.
Proof.
  intros Hwf. unfold initParticles.
  destruct (Z_le_gt_dec pcount 0) as [Hn|Hn]; [by rewrite for_u32_nonpos|].
  apply (for_u32_ind (λ _ st, particles_wf pcount st.1)); [lia|done|].
  intros j [q r] Hj (Hp & Hv & Hl). destruct (randomPoint r) as [pt r'].
  unfold particles_wf, set_pos, set_vel, set_life. cbn [fst pos vel life].
  by rewrite !length_insert.
Qed.

(** Particle [i] after [initParticles]: a drawn point, no velocity, no
    lifetime left. *)
Lemma initParticles_at (p : Particles F) (rng : Rand) (i : Z) :
  particles_wf pcount p → 0 ≤ i < pcount →
  ∃ r : Rand,
    particleAt (initParticles pcount p rng).1 (Z.to_nat i)
    = ((randomPoint r).1, vsplat (fofZ 0), 0).
Proof.
  intros Hwf Hi. unfold initParticles.
  set (body := λ (i : Z) '(p, rng),
    let n := Z.to_nat i in
    let '(pt, rng) := randomPoint rng in
    let p := set_pos p n pt in
    let p := set_vel p n (vsplat (fofZ 0)) in
    let p := set_life p n 0 in (p, rng)).
  destruct (for_u32_at (λ st m, particleAt st.1 m) body pcount (p, rng) i) as [_ Hend];
    [|done|].
  { intros j [q r] m Hj Hm. unfold body, particleAt.
    destruct (randomPoint r) as [pt r']. unfold set_pos, set_vel, set_life.
    cbn [fst pos vel life]. by rewrite !list_lookup_total_insert_ne. }
  rewrite Hend. clear Hend.
  assert (Hmid : particles_wf pcount (for_u32 i body (p, rng)).1).
  { apply (for_u32_ind (λ _ st, particles_wf pcount st.1)); [lia|done|].
    intros j [q r] Hj (Hp & Hv & Hl). unfold body.
    destruct (randomPoint r) as [pt r'].
    unfold particles_wf, set_pos, set_vel, set_life. cbn [fst pos vel life].
    by rewrite !length_insert. }
  destruct (for_u32 i body (p, rng)) as [q r]. destruct Hmid as (Hp & Hv & Hl).
  exists r. unfold body, particleAt. destruct (randomPoint r) as [pt r'].
  unfold set_pos, set_vel, set_life. cbn [fst pos vel life].
  rewrite !list_lookup_total_insert_eq by (simpl in *; lia). done.
Qed.
End FreshParticles.

(** X5. On the reals, with a generator that draws floats from the
    closed-open range it is asked for: [initParticles] keeps the three
    arrays at their size and leaves every particle at a position in
    [0,1) x [0,1), with zero velocity and lifetime 0. *)
Theorem initParticles_resets {Rand : Type} `{RandOps R Rand}
  (pcount : Z) (p : Particles R) (rng : Rand) (i : Z) :
  (∀ s lo hi, (lo < hi)%R → (lo <= (getFloat s lo hi).1 < hi)%R) →
  particles_wf pcount p → 0 ≤ i < pcount →
  let p' := (initParticles pcount p rng).1 in
  let n := Z.to_nat i in
  particles_wf pcount p'
  ∧ (0 <= Vec2.x (pos p' !!! n) < 1)%R ∧ (0 <= Vec2.y (pos p' !!! n) < 1)%R
  ∧ vel p' !!! n = Vec2.make 0%R 0%R
  ∧ life p' !!! n = 0.
Proof.
  intros Hfloat Hwf Hi p' n. subst p' n.
  split; [by apply initParticles_wf|].
  destruct (initParticles_at pcount p rng i Hwf Hi) as [r Hr].
  unfold particleAt in Hr. injection Hr as Hp Hv Hl. rewrite Hp, Hv, Hl.
  unfold randomPoint. cbn [fofZ Rops].
  pose proof (Hfloat r 0%R 1%R ltac:(lra)) as Hx.
  destruct (getFloat r 0%R 1%R) as [fx r1].
  pose proof (Hfloat r1 0%R 1%R ltac:(lra)) as Hy.
  destruct (getFloat r1 0%R 1%R) as [fy r2]. done.
Qed.

Lemma initParticles_resets_witness :
  let p' := (initParticles 150000 driftingParticles 0%Z).1 in
  (0 <= Vec2.x (pos p' !!! 7%nat) < 1)%R ∧ (0 <= Vec2.y (pos p' !!! 7%nat) < 1)%R
  ∧ vel p' !!! 7%nat = Vec2.make 0%R 0%R
  ∧ life p' !!! 7%nat = 0.
Proof.
  exact (proj2 (initParticles_resets 150000 driftingParticles 0%Z 7
                  lcg_getFloat_range (uniformParticles_wf _ _ _) ltac:(lia))).
Defined.

(** X6. On the reals, with a generator that keeps to the ranges it is asked
    for: the first call of [updateParticles] after [initParticles] reseeds
    every particle.  Each one ends at a position in [0,1) x [0,1), with the
    field sampled there times 0.002 as velocity and a lifetime in [0,80). *)
Theorem first_step_reseeds_all {Rand : Type} `{RandOps R Rand}
  (width height pcount : Z) (p : Particles R) (vf : VectorField R) (rng : Rand) (i : Z) :
  (∀ s lo hi, (lo < hi)%R → (lo <= (getFloat s lo hi).1 < hi)%R) →
  (∀ s lo hi, lo < hi → lo ≤ (getUint s lo hi).1 < hi) →
  particles_wf pcount p → 0 ≤ i < pcount →
  let fresh := initParticles pcount p rng in
  let p' := (updateParticles width height pcount fresh.1 vf fresh.2).1 in
  let n := Z.to_nat i in
  (0 <= Vec2.x (pos p' !!! n) < 1)%R ∧ (0 <= Vec2.y (pos p' !!! n) < 1)%R
  ∧ vel p' !!! n = vscale (sample width height vf (pos p' !!! n)) (2 / 1000)%R
  ∧ 0 ≤ life p' !!! n < 80.
Proof.
  intros Hfloat Huint Hwf Hi fresh p' n. subst fresh p' n.
  pose proof (initParticles_wf pcount p rng Hwf) as Hwf1.
  destruct (initParticles_at pcount p rng i Hwf Hi) as [r0 Hr0].
  unfold particleAt in Hr0. injection Hr0 as _ _ Hlife.
  destruct (initParticles pcount p rng) as [p1 r1]. cbn [fst snd] in *.
  destruct (updateParticles_expired width height pcount p1 vf r1 i Hwf1 Hi Hlife)
    as (Hp & Hv & Hl).
  rewrite Hv, Hl, Hp. unfold randomPoint. cbn [fofZ Rops].
  set (g := rngAt width height p1 vf r1 i).
  pose proof (Hfloat g 0%R 1%R ltac:(lra)) as Hx.
  destruct (getFloat g 0%R 1%R) as [fx g1].
  pose proof (Hfloat g1 0%R 1%R ltac:(lra)) as Hy.
  destruct (getFloat g1 0%R 1%R) as [fy g2]. cbn [fst snd Vec2.x Vec2.y] in *.
  pose proof (Huint g2 0 80 ltac:(lia)) as Hu.
  split; [done|]. split; [done|]. split; [done|].
  rewrite wrap32_small by lia. lia.
Qed.

Lemma first_step_reseeds_all_witness :
  let fresh := initParticles 150000 driftingParticles 0%Z in
  let p' := (updateParticles 512 512 150000 fresh.1 leftwardField fresh.2).1 in
  (0 <= Vec2.x (pos p' !!! 7%nat) < 1)%R ∧ (0 <= Vec2.y (pos p' !!! 7%nat) < 1)%R
  ∧ vel p' !!! 7%nat
    = vscale (sample 512 512 leftwardField (pos p' !!! 7%nat)) (2 / 1000)%R
  ∧ 0 ≤ life p' !!! 7%nat < 80.
Proof.
  exact (first_step_reseeds_all 512 512 150000 driftingParticles leftwardField 0%Z 7
           lcg_getFloat_range lcg_getUint_range (uniformParticles_wf _ _ _)
           ltac:(lia)).
Defined.

(** ** The generator across a step *)

Lemma updateParticle_alive_rng {F : Type} `{FloatOps F} {Rand : Type} `{RandOps F Rand}
  (width height : Z) (vf : VectorField F) (p : Particles F) (rng : Rand) (i : Z) :
  life p !!! Z.to_nat i ≠ 0 → (updateParticle width height vf i (p, rng)).2 = rng.
Proof.
  intros Hlife. apply Z.eqb_neq in Hlife.
  unfold updateParticle, set_pos, set_vel. cbn [life]. by rewrite Hlife.
Qed.

(** X7. For every carrier and every generator: when no particle has
    lifetime 0, a call of [updateParticles] draws nothing and hands back
    the generator it was given. *)
Theorem updateParticles_keeps_generator {F : Type} `{FloatOps F}
  {Rand : Type} `{RandOps F Rand}
  (width height pcount : Z) (p : Particles F) (vf : VectorField F) (rng : Rand) :
  (∀ i, 0 ≤ i < pcount → life p !!! Z.to_nat i ≠ 0) →
  (updateParticles width height pcount p vf rng).2 = rng.
Proof.
  intros Hlive. unfold updateParticles.
  destruct (Z_le_gt_dec pcount 0) as [Hn|Hn]; [by rewrite for_u32_nonpos|].
  pose (P := λ (k : Z) (st : Particles F * Rand),
    st.2 = rng ∧ ∀ j, k ≤ j < pcount →
      life st.1 !!! Z.to_nat j = life p !!! Z.to_nat j).
  assert (HP : P pcount (for_u32 pcount (updateParticle width height vf) (p, rng))).
  { apply for_u32_ind; [lia|by split|].
    intros k [q r] Hk [Hr Hrest]. cbn [fst snd] in *. subst r. split.
    - apply updateParticle_alive_rng. rewrite Hrest by lia. by apply Hlive.
    - intros j Hj.
      destruct (updateParticle_other width height vf q rng k) as [_ Hoth].
      destruct (Hoth (Z.to_nat j)) as (_ & _ & Hl); [lia|].
      rewrite Hl. apply Hrest. lia. }
  apply HP.
Qed.

Lemma updateParticles_keeps_generator_witness :
  (updateParticles 512 512 150000 driftingParticles leftwardField 0%Z).2 = 0%Z.
Proof.
  apply (updateParticles_keeps_generator 512 512 150000 driftingParticles
           leftwardField 0%Z).
  intros i Hi.
  destruct (uniformParticles_lookup (Vec2.make (1 / 2) (1 / 2))%R
              (Vec2.make (1 / 100) 0)%R 5 (Z.to_nat i)) as (_ & _ & Hl); [lia|].
  unfold driftingParticles. rewrite Hl. lia.
Defined.

(** ** Particles across frames *)

Lemma updateParticles_wf {F : Type} `{FloatOps F} {Rand : Type} `{RandOps F Rand}
  (width height pcount : Z) (p : Particles F) (vf : VectorField F) (rng : Rand) :
  particles_wf pcount p →
  particles_wf pcount (updateParticles width height pcount p vf rng).1.
Proof.
  intros Hwf. unfold updateParticles.
  destruct (Z_le_gt_dec pcount 0) as [Hn|Hn]; [by rewrite for_u32_nonpos|].
  apply (for_u32_ind (λ _ st, particles_wf pcount st.1)); [lia|done|].
  intros j st Hj Hst. by apply updateParticle_wf.
Qed.

Section Frames.
Context {F : Type} `{FloatOps F} `{PowOp F} {Rand : Type} `{RandOps F Rand}.
Variables width height pcount : Z.

Lemma update_particles (st : State) (fr : Frame) :
  particles (update width height pcount st fr)
  = (updateParticles width height pcount (particles st)
       (vectorField (update width height pcount st fr)) (rng st)).1.
Proof.
  unfold update. cbv zeta.
  match goal with
  | |- particles (match ?u with _ => _ end) = _ => destruct u as [ps r] eqn:E
  end.
  cbn [particles vectorField]. by rewrite E.
Qed.

Lemma update_field_idle (st : State) (fr : Frame) :
  idle fr → vectorField (update width height pcount st fr) = vectorField st.
Proof.
  intros [Hb0 Hb1]. unfold update. cbv zeta.
  destruct (updateParticles _ _ _ _ _ _). cbn [vectorField].
  by rewrite Hb0, Hb1.
Qed.

Lemma update_particles_wf (st : State) (fr : Frame) :
  particles_wf pcount (particles st) →
  particles_wf pcount (particles (update width height pcount st fr)).
Proof. intros Hwf. rewrite update_particles. by apply updateParticles_wf. Qed.
End Frames.

(** X8. For every carrier and every generator: a particle with lifetime
    [l] is not reseeded during its next [l] frames; after [k <= l] calls of
    [update], whatever the input of those frames, its lifetime is
    [l - k]. *)
Theorem lifetime_counts_frames {F : Type} `{FloatOps F} `{PowOp F}
  {Rand : Type} `{RandOps F Rand}
  (width height pcount : Z) (st : State) (frames : list Frame) (i : Z) :
  particles_wf pcount (particles st) → 0 ≤ i < pcount →
  Z.of_nat (length frames) ≤ life (particles st) !!! Z.to_nat i < 2 ^ 32 →
  life (particles (run width height pcount st frames)) !!! Z.to_nat i
  = life (particles st) !!! Z.to_nat i - Z.of_nat (length frames).
Proof.
  intros Hwf Hi. unfold run. revert st Hwf.
  induction frames as [|fr frs IH]; intros st Hwf Hlife; [simpl; lia|].
  cbn [foldl]. cbn [length] in Hlife.
  assert (Hstep : life (particles (update width height pcount st fr)) !!! Z.to_nat i
                  = life (particles st) !!! Z.to_nat i - 1).
  { rewrite update_particles.
    destruct (updateParticles_alive width height pcount (particles st)
                (vectorField (update width height pcount st fr)) (rng st) i Hwf Hi)
      as (_ & _ & Hl); [lia|].
    rewrite Hl. apply wrap32_small. lia. }
  rewrite IH.
  - rewrite Hstep. cbn [length]. lia.
  - by apply update_particles_wf.
  - rewrite Hstep. lia.
Qed.

(** X9. On the reals, from the state [startup] builds: as long as no button
    is held, the field stays the zero field and every particle has zero
    velocity, frame after frame, so nothing moves between two reseeds. *)
Theorem idle_run_stays_still {Rand : Type} `{RandOps R Rand}
  (width height pcount : Z) (seed : Rand) (frames : list Frame) (i : Z) :
  dims_ok width height → Forall idle frames → 0 ≤ i < pcount →
  let st := run width height pcount (startup width height pcount seed) frames in
  vectorField st = constField width height (Vec2.make 0%R 0%R)
  ∧ vel (particles st) !!! Z.to_nat i = Vec2.make 0%R 0%R.
Proof.
  intros Hdims Hidle Hi st. subst st.
  set (zero := constField width height (Vec2.make 0%R 0%R)).
  pose (Inv := λ st : @State R Rand,
    vectorField st = zero ∧ particles_wf pcount (particles st)
    ∧ ∀ j, 0 ≤ j < pcount → vel (particles st) !!! Z.to_nat j = Vec2.make 0%R 0%R).
  assert (Hstep : ∀ st fr, Inv st → idle fr → Inv (update width height pcount st fr)).
  { intros st fr (Hf & Hwf & Hv) Hfr.
    assert (Hf' : vectorField (update width height pcount st fr) = zero)
      by (by rewrite update_field_idle).
    split; [done|]. split; [by apply update_particles_wf|].
    intros j Hj. rewrite update_particles, Hf'.
    destruct (decide (life (particles st) !!! Z.to_nat j = 0)) as [Hz|Hnz].
    - destruct (updateParticles_expired width height pcount (particles st) zero
                  (rng st) j Hwf Hj Hz) as (_ & Hvel & _).
      rewrite Hvel. unfold zero. rewrite sample_constField by done.
      apply vec2_eq; real_ops; lra.
    - destruct (updateParticles_alive width height pcount (particles st) zero
                  (rng st) j Hwf Hj Hnz) as (_ & Hvel & _).
      rewrite Hvel, (Hv j Hj). unfold particleForce.
      destruct (insideUnitSquare _).
      + unfold zero. rewrite sample_constField by done.
        apply vec2_eq; unfold friction, forceScale; real_ops; lra.
      + apply vec2_eq; unfold friction; real_ops; lra. }
  assert (Hrun : ∀ st, Inv st → Inv (run width height pcount st frames)).
  { unfold run. induction Hidle as [|fr frs Hfr Hfrs IH]; intros st Hst; [done|].
    simpl. apply IH. by apply Hstep. }
  assert (Hinit : Inv (startup width height pcount seed)).
  { split; [apply startup_field|].
    set (blank := mkParticles (replicate (Z.to_nat pcount) inhabitant)
                    (replicate (Z.to_nat pcount) inhabitant)
                    (replicate (Z.to_nat pcount) 0) : Particles R).
    assert (Hblank : particles_wf pcount blank)
      by (unfold particles_wf, blank; cbn [pos vel life]; by rewrite !length_replicate).
    assert (Hps : particles (startup width height pcount seed)
                  = (initParticles pcount blank seed).1).
    { unfold startup. cbv zeta. fold blank. by destruct (initParticles _ _ _). }
    rewrite Hps. split; [by apply initParticles_wf|].
    intros j Hj. destruct (initParticles_at pcount blank seed j Hblank Hj) as [r Hr].
    unfold particleAt in Hr. by injection Hr as _ -> _. }
  destruct (Hrun _ Hinit) as (Hf & _ & Hv). split; [done|]. by apply Hv.
Qed.

Lemma idle_run_stays_still_witness :
  let st := run 512 512 150000 (startup 512 512 150000 0%Z)
              [restFrame 1000; restFrame 2000] in
  vectorField st = constField 512 512 (Vec2.make 0%R 0%R)
  ∧ vel (particles st) !!! 7%nat = Vec2.make 0%R 0%R.
Proof.
  apply (idle_run_stays_still 512 512 150000 0%Z [restFrame 1000; restFrame 2000] 7
           dims_ok_512).
  - repeat constructor.
  - lia.
Defined.

Lemma lifetime_counts_frames_witness :
  life (particles (run 512 512 150000 driftingState [restFrame 1000; restFrame 2000]))
    !!! 7%nat = 3.
Proof.
  destruct (uniformParticles_lookup (Vec2.make (1 / 2) (1 / 2))%R
              (Vec2.make (1 / 100) 0)%R 5 7) as (_ & _ & Hl); [lia|].
  pose proof (lifetime_counts_frames 512 512 150000 driftingState
                [restFrame 1000; restFrame 2000] 7 (uniformParticles_wf _ _ _)
                ltac:(lia)) as Hrun.
  change (Z.to_nat 7) with 7%nat in Hrun.
  change (particles driftingState) with driftingParticles in Hrun.
  unfold driftingParticles in Hrun at 1 2 3. rewrite Hl in Hrun.
  rewrite Hrun; [reflexivity|]. cbn [length]. lia.
Defined.

(** ** Combing a cell that holds nothing *)

Lemma vscale_vscale (v : Vec2 R) (a b : R) :
  vscale (vscale v a) b = vscale v (a * b)%R.
Proof. apply vec2_eq; real_ops; ring. Qed.

(** X10. On the reals, for a positive radius and a stroke longer than the
    threshold: a zero cell closer to the brush centre than the radius
    comes out of [comb] pointing exactly along the stroke, with a length
    that is positive and at most 1. *)
Theorem comb_zero_cell_follows_stroke (width height : Z) (vf : VectorField R)
  (brushPrev brushCur : Vec2 R) (r : R) (x y : Z) :
  dims_ok width height → field_wf width height vf → in_grid width height x y →
  (0 < r)%R →
  (1 / 10000 < vlength (vsub brushCur brushPrev))%R →
  (centreDistance width height brushCur x y < r)%R →
  data vf !!! cellIndex width x y = Vec2.make 0%R 0%R →
  let stroke := vsub brushCur brushPrev in
  ∃ c : R, (0 < c <= 1)%R
    ∧ data (comb width height vf brushPrev brushCur r) !!! cellIndex width x y
      = vscale (vdivs stroke (vlength stroke)) c.
Proof.
  intros Hdims Hwf Hg Hr Hlong Hnear Hzero stroke. subst stroke.
  set (stroke := vsub brushCur brushPrev) in *.
  assert (Hin : footprint width height brushCur r x y = true).
  { apply footprint_real.
    pose proof (centreDistance_ge_x width height brushCur x y).
    pose proof (centreDistance_ge_y width height brushCur x y). split; lra. }
  rewrite comb_lookup, Hin, andb_true_r, Hzero by done.
  replace (fleb _ _) with false by (symmetry; apply Rleb_false; exact Hlong).
  cbn [negb]. unfold combCell. cbv zeta. fold stroke.
  set (sd := vdivs stroke (vlength stroke)).
  set (w := fmul (fmul _ _) _).
  assert (Hsd : vlength sd = 1%R) by (apply vlength_normalized; lra).
  assert (Hw : (0 < w)%R).
  { unfold w. cbn [fmul fsub fdiv fofZ Rops]. rewrite forceLenOf_real by done.
    assert (Hd : (0 <= centreDistance width height brushCur x y)%R)
      by apply vlength_nonneg.
    assert (Hq : (centreDistance width height brushCur x y / r < 1)%R).
    { apply (Rmult_lt_reg_r r); [done|]. unfold Rdiv.
      rewrite Rmult_assoc, Rinv_l by lra. lra. }
    rewrite Rmin_right by lra.
    assert (Hp : (0 < fpow (vlength stroke) (flit 18 10))%R)
      by (unfold fpow, Rpow, Rpower; apply exp_pos).
    assert (Hk : (0 < 150 / (4 * r))%R)
      by (apply Rdiv_lt_0_compat; lra).
    apply Rmult_lt_0_compat; [apply Rmult_lt_0_compat|]; [lra|done|done]. }
  assert (Hv : vadd (Vec2.make 0%R 0%R) (vscale sd w) = vscale sd w)
    by (apply vec2_eq; real_ops; ring).
  rewrite Hv. rewrite vlength_vscale, Hsd, Rabs_right, Rmult_1_r by lra.
  unfold fgtb. cbn [fltb fofZ Rops].
  destruct (Rltb 1 w) eqn:Hcmp.
  - exists 1%R. split; [lra|].
    change (vdivs (vscale sd w) w) with (vscale (vscale sd w) (/ w)%R).
    rewrite vscale_vscale. f_equal. field. lra.
  - apply Rltb_false in Hcmp. exists w. split; [lra|done].
Qed.

Lemma comb_zero_cell_follows_stroke_witness :
  ∃ c : R, (0 < c <= 1)%R
    ∧ data (comb 4 4 scenarioField scenarioPrev scenarioCur scenarioRadius)
        !!! cellIndex 4 1 0
      = vscale (vdivs (vsub scenarioCur scenarioPrev)
                  (vlength (vsub scenarioCur scenarioPrev))) c.
Proof.
  apply (comb_zero_cell_follows_stroke 4 4 scenarioField scenarioPrev scenarioCur
           scenarioRadius 1 0 dims_ok_4 (constField_wf 4 4 _)).
  - unfold in_grid. lia.
  - unfold scenarioRadius. lra.
  - exact scenario_stroke_long.
  - unfold centreDistance. rewrite absDeltaOf_real. unfold scenarioCur, scenarioRadius.
    real_ops.
    apply Rle_lt_trans with (sqrt ((15 / 100) * (15 / 100))).
    + apply sqrt_le_1_alt.
      assert (Ha : (Rabs (1 / 4 - 3 / 10) <= 5 / 100)%R) by (apply Rabs_le; lra).
      assert (Hb : (Rabs (0 / 4 - 1 / 10) <= 1 / 10)%R) by (apply Rabs_le; lra).
      pose proof (Rabs_pos (1 / 4 - 3 / 10)). pose proof (Rabs_pos (0 / 4 - 1 / 10)).
      nra.
    + rewrite sqrt_square by lra. lra.
  - apply constField_lookup; [apply dims_ok_4|]. unfold in_grid. lia.
Defined.

(** ** Damping again and again *)

(** X11. On the reals, [n] calls of [dampen] with the same brush multiply a
    cell inside the footprint by the [n]-th power of its factor
    [0.8 + 0.2 * forceLen]: its length never grows, and at the brush centre
    it is the old length times [0.8 ^ n]. *)
Theorem dampen_repeated (width height : Z) (n : nat) (vf : VectorField R)
  (brushPos : Vec2 R) (r : R) (x y : Z) :
  dims_ok width height → field_wf width height vf → in_grid width height x y →
  (0 < r)%R →
  footprint width height brushPos r x y = true →
  let v := data vf !!! cellIndex width x y in
  let v' := data (dampenTimes width height n vf brushPos r) !!! cellIndex width x y in
  let k := dampFactor width height brushPos r x y in
  v' = vscale v (k ^ n)%R
  ∧ (vlength v' <= vlength v)%R
  ∧ (centreDistance width height brushPos x y = 0%R →
     vlength v' = ((8 / 10) ^ n * vlength v)%R).
Proof.
  intros Hdims Hwf Hg Hr Hin v v' k. subst v v' k.
  set (k := dampFactor width height brushPos r x y).
  pose proof (dampFactor_range width height brushPos r x y) as Hk. fold k in Hk.
  assert (Hiter : field_wf width height (dampenTimes width height n vf brushPos r)
    ∧ data (dampenTimes width height n vf brushPos r) !!! cellIndex width x y
      = vscale (data vf !!! cellIndex width x y) (k ^ n)%R).
  { induction n as [|n [IHwf IH]].
    - split; [done|]. unfold dampenTimes. simpl. by rewrite vscale_one.
    - unfold dampenTimes in *. simpl Nat.iter. split; [by apply dampen_wf|].
      rewrite dampen_cell_real, Hin, IH by done. fold k.
      rewrite vscale_vscale. f_equal. simpl. ring. }
  destruct Hiter as [_ Hv']. rewrite Hv'.
  assert (Hpow : (0 <= k ^ n <= 1)%R).
  { split; [apply pow_le; lra|]. rewrite <- (pow1 n). apply pow_incr. lra. }
  pose proof (vlength_nonneg (data vf !!! cellIndex width x y)) as Hl.
  rewrite vlength_vscale, Rabs_right by lra.
  split; [done|]. split; [nra|].
  intros Hcentre. unfold k. by rewrite dampFactor_centre.
Qed.

Lemma dampen_repeated_witness :
  data (dampenTimes 512 512 3 longField centreCur (1 / 10)%R) !!! cellIndex 512 256 256
  = vscale (data longField !!! cellIndex 512 256 256)
      (dampFactor 512 512 centreCur (1 / 10) 256 256 ^ 3)%R.
Proof.
  refine (proj1 (dampen_repeated 512 512 3 longField centreCur (1 / 10)%R 256 256
                   dims_ok_512 (constField_wf 512 512 _) _ _ centre_cell_inside)).
  - unfold in_grid. lia.
  - lra.
Defined.

(** ** Colours *)

Section ColourFacts.
Local Open Scope R_scope.

Lemma Rtrunc_IZR (z : Z) : Rtrunc (IZR z) = z.
Proof.
  unfold Rtrunc. destruct (Rle_dec 0 (IZR z)).
  - apply Int_part_eq. lra.
  - rewrite <- opp_IZR. rewrite (Int_part_eq (IZR (- z)) (- z)); [lia | lra].
Qed.

Lemma wrapInt_small (z : Z) : (- 2 ^ 31 ≤ z < 2 ^ 31)%Z → wrapInt z = z.
Proof. intros Hz. unfold wrapInt. rewrite Z.mod_small; lia. Qed.

(** The [switch] of [hsvToRgb] returns one of its six cases. *)
Lemma sector_cases {A : Type} (i : Z) (c0 c1 c2 c3 c4 d : A) :
  let m := match i with
           | 0 => c0 | 1 => c1 | 2 => c2 | 3 => c3 | 4 => c4 | _ => d
           end%Z in
  m = c0 ∨ m = c1 ∨ m = c2 ∨ m = c3 ∨ m = c4 ∨ m = d.
Proof.
  cbv zeta.
  repeat match goal with
         | |- context [match ?p with _ => _ end] => destruct p
         end; auto 10.
Qed.

(** [hsvToRgb] past its early return, when the sector fits an [int]. *)
Lemma hsvToRgb_sector (h s v : R) :
  1 / 100000 <= s →
  (- 2 ^ 31 ≤ Int_part (h / 60) < 2 ^ 31)%Z →
  let i := Int_part (h / 60) in
  let f := h / 60 - IZR i in
  let p := v * (1 - s) in
  let q := v * (1 - s * f) in
  let t := v * (1 - s * (1 - f)) in
  hsvToRgb h s v =
    match i with
    | 0 => ColorRGBA.make v t p
    | 1 => ColorRGBA.make q v p
    | 2 => ColorRGBA.make p v t
    | 3 => ColorRGBA.make p q v
    | 4 => ColorRGBA.make t p v
    | _ => ColorRGBA.make v p q
    end%Z.
Proof.
  intros Hs Hi. cbv zeta. unfold hsvToRgb. real_ops.
  cbn [ffloor Rrender].
  rewrite (proj2 (Rltb_false _ _)) by lra.
  rewrite Rtrunc_IZR, wrapInt_small by done.
  done.
Qed.

(** With a negative first argument the angle is negative. *)
Lemma Ratan2_negative (y x : R) : y < 0 → - PI < Ratan2 y x < 0.
Proof.
  intros Hy. pose proof PI_RGT_0 as Hpi. unfold Ratan2.
  destruct (Rlt_dec 0 x) as [Hx|Hx].
  - assert (Hq : y / x < 0).
    { unfold Rdiv. assert (0 < / x) by (by apply Rinv_0_lt_compat). nra. }
    pose proof (atan_bound (y / x)) as Hb.
    pose proof (atan_increasing _ _ Hq) as Hi. rewrite atan_0 in Hi. lra.
  - destruct (Rlt_dec x 0) as [Hx'|Hx'].
    + destruct (Rle_dec 0 y); [lra|].
      assert (Hq : 0 < y / x).
      { unfold Rdiv. assert (/ x < 0) by (by apply Rinv_lt_0_compat). nra. }
      pose proof (atan_bound (y / x)) as Hb.
      pose proof (atan_increasing _ _ Hq) as Hi. rewrite atan_0 in Hi. lra.
    + destruct (Rlt_dec 0 y); [lra|]. destruct (Rlt_dec y 0); lra.
Qed.

(** X12. On the reals, for a saturation in [0, 1], a brightness that is
    not negative and a hue whose sector [floor(h / 60)] fits an [int]:
    the largest channel of [hsvToRgb h s v] is [v]; the smallest is
    [v * (1 - s)], or [v] itself when [s] is below [0.00001] and the
    colour is the grey [(v, v, v)]. *)
Theorem hsvToRgb_value_and_chroma (h s v : R) :
  0 <= s <= 1 → 0 <= v →
  (- 2 ^ 31 ≤ Int_part (h / 60) < 2 ^ 31)%Z →
  let c := hsvToRgb h s v in
  Rmax (ColorRGBA.r c) (Rmax (ColorRGBA.g c) (ColorRGBA.b c)) = v
  ∧ Rmin (ColorRGBA.r c) (Rmin (ColorRGBA.g c) (ColorRGBA.b c))
    = (if Rltb s (1 / 100000) then v else v * (1 - s)).
Proof.
  intros Hs Hv Hi. cbv zeta.
  destruct (Rltb s (1 / 100000)) eqn:Hsmall.
  - unfold hsvToRgb. real_ops. rewrite Hsmall.
    cbn [ColorRGBA.r ColorRGBA.g ColorRGBA.b].
    unfold Rmax, Rmin. repeat destruct (Rle_dec _ _); lra.
  - apply Rltb_false in Hsmall. rewrite hsvToRgb_sector by done.
    pose proof (Int_part_range (h / 60)) as Hf.
    set (f := h / 60 - IZR (Int_part (h / 60))).
    assert (Hf' : 0 <= f < 1) by (unfold f; lra).
    clearbody f. clear Hf.
    assert (Hvs : 0 <= v * s) by (apply Rmult_le_pos; lra).
    assert (Hvsf : 0 <= v * s * f <= v * s).
    { split; [apply Rmult_le_pos; lra|].
      rewrite <- (Rmult_1_r (v * s)) at 2. apply Rmult_le_compat_l; lra. }
    assert (Hq : v * (1 - s) <= v * (1 - s * f) <= v) by lra.
    assert (Ht : v * (1 - s) <= v * (1 - s * (1 - f)) <= v) by lra.
    destruct (sector_cases (Int_part (h / 60))
      (ColorRGBA.make v (v * (1 - s * (1 - f))) (v * (1 - s)))
      (ColorRGBA.make (v * (1 - s * f)) v (v * (1 - s)))
      (ColorRGBA.make (v * (1 - s)) v (v * (1 - s * (1 - f))))
      (ColorRGBA.make (v * (1 - s)) (v * (1 - s * f)) v)
      (ColorRGBA.make (v * (1 - s * (1 - f))) (v * (1 - s)) v)
      (ColorRGBA.make v (v * (1 - s)) (v * (1 - s * f))))
      as [E|[E|[E|[E|[E|E]]]]]; cbv zeta in E; rewrite E;
      cbn [ColorRGBA.r ColorRGBA.g ColorRGBA.b];
      unfold Rmax, Rmin; repeat destruct (Rle_dec _ _); lra.
Qed.

Lemma hsvToRgb_value_and_chroma_witness :
  let c := hsvToRgb 90 (1 / 2) 1 in
  Rmax (ColorRGBA.r c) (Rmax (ColorRGBA.g c) (ColorRGBA.b c)) = 1
  ∧ Rmin (ColorRGBA.r c) (Rmin (ColorRGBA.g c) (ColorRGBA.b c))
    = (if Rltb (1 / 2) (1 / 100000) then 1 else 1 * (1 - 1 / 2)).
Proof.
  apply (hsvToRgb_value_and_chroma 90 (1 / 2) 1); [lra | lra |].
  rewrite (Int_part_eq (90 / 60) 1) by lra. lia.
Defined.

(** X13. On the reals, [dirToColor] doubles the angle of the direction
    (it scales [atan2], which lies in (-PI, PI], by [360 / Pi]), so a
    direction with a negative [x] has a negative hue and falls in the
    [default] case of [hsvToRgb]: for a saturation of at least [0.00001]
    its red channel is the brightness and its green channel the
    brightness times [1 - saturation], whatever the direction. *)
Theorem dirToColor_left_half (dir : Vec2 R) (saturation brightness : R) :
  Vec2.x dir < 0 → 1 / 100000 <= saturation →
  ColorRGBA.r (dirToColorF dir saturation brightness) = brightness
  ∧ ColorRGBA.g (dirToColorF dir saturation brightness)
    = brightness * (1 - saturation).
Proof.
  intros Hx Hs. unfold dirToColorF. cbv zeta.
  cbn [fatan2 fPi Rrender fofZ fmul fdiv Rops].
  pose proof (Ratan2_negative _ (Vec2.y dir) Hx) as Ha.
  pose proof PI_RGT_0 as Hpi.
  set (a := Ratan2 _ _) in *. clearbody a.
  assert (Hh : -6 < 360 * a / PI / 60 < 0).
  { replace (360 * a / PI / 60) with (6 * (a / PI)) by (field; lra).
    assert (-1 < a / PI < 0).
    { split.
      - apply (Rmult_lt_reg_r PI); [done|]. unfold Rdiv.
        rewrite Rmult_assoc, Rinv_l by lra. lra.
      - apply (Rmult_lt_reg_r PI); [done|]. unfold Rdiv.
        rewrite Rmult_assoc, Rinv_l by lra. lra. }
    lra. }
  pose proof (Int_part_range (360 * a / PI / 60)) as Hr.
  assert (Hi : (-6 ≤ Int_part (360 * a / PI / 60) < 0)%Z).
  { split.
    - assert (Hlt : IZR (-7) < IZR (Int_part (360 * a / PI / 60))) by lra.
      apply lt_IZR in Hlt. lia.
    - apply lt_IZR. lra. }
  rewrite hsvToRgb_sector by (done || lia).
  destruct (Int_part (360 * a / PI / 60)) as [|p|p]; [lia|lia|].
  done.
Qed.

Lemma dirToColor_left_half_witness :
  ColorRGBA.r (dirToColorF (Vec2.make (-1) 0) (2 / 10) (3 / 10)) = 3 / 10
  ∧ ColorRGBA.g (dirToColorF (Vec2.make (-1) 0) (2 / 10) (3 / 10))
    = 3 / 10 * (1 - 2 / 10).
Proof.
  apply (dirToColor_left_half (Vec2.make (-1) 0) (2 / 10) (3 / 10));
    cbn [Vec2.x]; lra.
Defined.
End ColourFacts.

(** ** The brush outline *)

(** The loop of [drawBrush] unrolled: segment [i] joins vertex [i] to
    vertex [i + 1]. *)
Lemma drawBrush_segments {F : Type} `{FloatOps F} `{RenderOps F}
  (brushPos : Vec2 F) (brushRadius : F) :
  drawBrush brushPos brushRadius
  = (λ i, mkDrawnLine (Line2.make (brushVertex brushPos brushRadius i)
                         (brushVertex brushPos brushRadius (i + 1))) white white)
    <$> seqZ 0 60.
Proof. reflexivity. Qed.

Section BrushOutline.
Local Open Scope R_scope.

Lemma brushVertex_on_circle (p : Vec2 R) (r : R) (i : Z) :
  vlength (vsub (brushVertex p r i) p) = Rabs r.
Proof.
  unfold brushVertex, brushPoint. destruct (decide (i = 0%Z)); real_ops.
  - rewrite <- sqrt_Rsqr_abs. f_equal. unfold Rsqr. ring.
  - cbn [fsin fcos fTwoPi Rrender].
    set (a := IZR i / 60 * (2 * PI)).
    rewrite <- sqrt_Rsqr_abs. f_equal. unfold Rsqr.
    pose proof (sin2_cos2 a) as Hsc. unfold Rsqr in Hsc.
    replace (Vec2.x p + cos a * r - Vec2.x p) with (cos a * r) by ring.
    replace (Vec2.y p + sin a * r - Vec2.y p) with (sin a * r) by ring.
    replace (cos a * r * (cos a * r) + sin a * r * (sin a * r))
      with ((sin a * sin a + cos a * cos a) * (r * r)) by ring.
    rewrite Hsc. ring.
Qed.

Lemma brushVertex_last (p : Vec2 R) (r : R) :
  brushVertex p r 60 = brushVertex p r 0.
Proof.
  unfold brushVertex, brushPoint.
  destruct (decide (60%Z = 0%Z)); [done|]. destruct (decide (0%Z = 0%Z)); [|done].
  real_ops. cbn [fsin fcos fTwoPi Rrender].
  replace (60 / 60 * (2 * PI)) with (2 * PI) by field.
  rewrite sin_2PI, cos_2PI. apply vec2_eq; cbn [Vec2.x Vec2.y]; ring.
Qed.

(** X14. On the reals, [drawBrush] draws a closed polygon on the circle
    of the brush: 60 white segments, each starting where the one before
    ended, the first starting at [brushPos + (brushRadius, 0)] and the
    last ending there, and every end of every segment at distance
    [|brushRadius|] from [brushPos]. *)
Theorem drawBrush_closed_circle (brushPos : Vec2 R) (brushRadius : R) :
  let segs := drawBrush brushPos brushRadius in
  length segs = 60%nat
  ∧ (∀ k a b, segs !! k = Some a → segs !! Datatypes.S k = Some b →
       Line2.start (line b) = Line2.end_ (line a))
  ∧ (∃ a b, head segs = Some a ∧ last segs = Some b
       ∧ Line2.start (line a) = vadd brushPos (Vec2.make brushRadius 0)
       ∧ Line2.end_ (line b) = Line2.start (line a))
  ∧ (∀ s, s ∈ segs →
       vlength (vsub (Line2.start (line s)) brushPos) = Rabs brushRadius
       ∧ vlength (vsub (Line2.end_ (line s)) brushPos) = Rabs brushRadius
       ∧ colorStart s = white ∧ colorEnd s = white).
Proof.
  cbv zeta. rewrite drawBrush_segments.
  set (f := λ i : Z, mkDrawnLine _ white white).
  split; [by rewrite length_fmap, length_seqZ|]. split; [|split].
  - intros k a b Ha Hb.
    rewrite list_lookup_fmap in Ha, Hb.
    destruct (seqZ 0 60 !! k) as [i|] eqn:Hi; [|done].
    destruct (seqZ 0 60 !! Datatypes.S k) as [j|] eqn:Hj; [|done].
    apply lookup_seqZ in Hi as [-> _]. apply lookup_seqZ in Hj as [-> _].
    cbn in Ha, Hb. inversion Ha; inversion Hb; subst. unfold f.
    cbn [line Line2.start Line2.end_].
    f_equal. lia.
  - exists (f 0%Z), (f 59%Z). split; [done|]. split; [done|].
    unfold f. cbn [line Line2.start Line2.end_]. split; [done|].
    apply brushVertex_last.
  - intros s Hs. apply list_elem_of_fmap in Hs as (i & -> & _).
    unfold f. cbn [line Line2.start Line2.end_ colorStart colorEnd].
    by rewrite !brushVertex_on_circle.
Qed.

Lemma drawBrush_closed_circle_witness :
  length (drawBrush (Vec2.make 512 512) (1024 / 10)) = 60%nat.
Proof.
  exact (proj1 (drawBrush_closed_circle (Vec2.make 512 512) (1024 / 10))).
Defined.
End BrushOutline.

(** ** Particle batches *)

Lemma insert_pair {A : Type} (l : list A) (d v0 v1 : A) (m : nat) :
  <[Datatypes.S (length l) := v1]> (<[length l := v0]> (l ++ d :: d :: replicate m d))
  = (l ++ [v0; v1]) ++ replicate m d.
Proof. induction l as [|a l IH]; [done|]. cbn. f_equal. apply IH. Qed.

Section Batches.
Context {F : Type} `{FloatOps F} `{RenderOps F} `{ColorConv F}.
Variables (particles : Particles F) (visualDimensions : Vec2 F).

Lemma vertexPair_run_length (first n : Z) :
  0 ≤ n →
  length (seqZ first n ≫= vertexPair particles visualDimensions) = Z.to_nat (2 * n).
Proof.
  intros Hn. rewrite <- (Z2Nat.id n) by done.
  induction (Z.to_nat n) as [|k IH]; [done|].
  rewrite seqZ_S, bind_app, length_app, IH.
  cbn [mbind list_bind app length].
  unfold vertexPair at 1. cbv zeta. cbn [app length]. lia.
Qed.

(** The inner loop of [drawParticles] fills the batch it was given with
    the vertex pairs of [n] particles in a row. *)
Lemma fill_vertices (first n : Z) (d : BatchVertex F) :
  0 ≤ n → 2 * n < 2 ^ 32 → 0 ≤ first → first + n ≤ 2 ^ 32 →
  for_u32 n (λ i vertices,
      <[Z.to_nat (wrap32 (i * 2 + 1)) :=
          (particleVertices particles visualDimensions (wrap32 (first + i))).2]>
        (<[Z.to_nat (wrap32 (i * 2 + 0)) :=
            (particleVertices particles visualDimensions (wrap32 (first + i))).1]>
           vertices))
    (replicate (Z.to_nat (2 * n)) d)
  = seqZ first n ≫= vertexPair particles visualDimensions.
Proof.
  intros Hn H2n Hfirst Hlast.
  set (body := λ (i : Z) (vertices : list (BatchVertex F)), _).
  set (pair := vertexPair particles visualDimensions).
  assert (Hinv : for_u32 n body (replicate (Z.to_nat (2 * n)) d)
                 = (seqZ first n ≫= pair) ++ replicate (Z.to_nat (2 * (n - n))) d).
  { apply (for_u32_ind
      (λ k vs, vs = (seqZ first k ≫= pair) ++ replicate (Z.to_nat (2 * (n - k))) d));
      [done | by rewrite Z.sub_0_r |].
    intros i a Hi ->. unfold body.
    rewrite !wrap32_small by lia.
    replace (Z.to_nat (2 * (n - i)))
      with (Datatypes.S (Datatypes.S (Z.to_nat (2 * (n - (i + 1)))))) by lia.
    cbn [replicate].
    replace (Z.to_nat (i * 2 + 0)) with (length (seqZ first i ≫= pair))
      by (unfold pair; rewrite vertexPair_run_length; lia).
    replace (Z.to_nat (i * 2 + 1))
      with (Datatypes.S (length (seqZ first i ≫= pair)))
      by (unfold pair; rewrite vertexPair_run_length; lia).
    rewrite insert_pair. f_equal.
    rewrite seqZ_app by lia. rewrite bind_app. by f_equal. }
  rewrite Hinv, Z.sub_diag. cbn. by rewrite app_nil_r.
Qed.

(** X15. For every carrier: when a batch holds at least two vertices,
    Rush's [divUp] returns the quotient rounded up and the counts do not
    overflow [u32], the batches of [drawParticles], one after the other,
    are the two vertices of particle 0, of particle 1, ... of particle
    [count - 1]: every particle is drawn once, in order.  No batch is
    empty and none holds more than [maxVerticesPerBatch] vertices. *)
Theorem drawParticles_batches (pcount maxVerticesPerBatch : Z) :
  2 ≤ maxVerticesPerBatch < 2 ^ 32 →
  0 ≤ pcount →
  pcount + maxVerticesPerBatch / 2 ≤ 2 ^ 32 →
  divUp pcount (maxVerticesPerBatch / 2)
  = (pcount + maxVerticesPerBatch / 2 - 1) / (maxVerticesPerBatch / 2) →
  let batches := drawParticles pcount maxVerticesPerBatch particles visualDimensions in
  concat batches = seqZ 0 pcount ≫= vertexPair particles visualDimensions
  ∧ Forall (λ b, b ≠ [] ∧ (length b ≤ Z.to_nat maxVerticesPerBatch)%nat) batches.
Proof.
  intros HmaxV Hcount Hfit Hdiv. cbv zeta. unfold drawParticles. cbv zeta.
  rewrite Hdiv.
  set (per := maxVerticesPerBatch / 2) in *.
  assert (Hper : 1 ≤ per ∧ 2 * per ≤ maxVerticesPerBatch).
  { unfold per. split; [apply Z.div_le_lower_bound; lia|].
    apply Z.mul_div_le. lia. }
  set (B := (pcount + per - 1) / per).
  assert (HB : 0 ≤ B) by (apply Z.div_pos; lia).
  assert (HBlo : B * per ≤ pcount + per - 1).
  { unfold B. rewrite Z.mul_comm. apply Z.mul_div_le. lia. }
  assert (HBhi : pcount ≤ B * per).
  { pose proof (Z.mul_succ_div_gt (pcount + per - 1) per ltac:(lia)) as Hgt.
    fold B in Hgt. lia. }
  set (body := λ (batchId : Z) (out : list (list (BatchVertex F))), _).
  set (pair := vertexPair particles visualDimensions).
  assert (Hinv : concat (for_u32 B body [])
                 = seqZ 0 (Z.min (B * per) pcount) ≫= pair
                 ∧ Forall (λ b, b ≠ [] ∧ (length b ≤ Z.to_nat maxVerticesPerBatch)%nat)
                     (for_u32 B body [])).
  { apply (for_u32_ind
      (λ k out, concat out = seqZ 0 (Z.min (k * per) pcount) ≫= pair
                ∧ Forall (λ b, b ≠ [] ∧ (length b ≤ Z.to_nat maxVerticesPerBatch)%nat) out));
      [done | |].
    { split; [|done]. by rewrite Z.mul_0_l, Z.min_l by lia. }
    intros b out Hb [Hcat Hall].
    assert (Hlt : b * per < pcount) by nia.
    unfold body.
    rewrite (wrap32_small (b * per)) by nia.
    rewrite (wrap32_small (b * per + per)) by nia.
    set (last := Z.min (b * per + per) pcount).
    assert (Hlast : b * per < last ≤ b * per + per) by (unfold last; lia).
    rewrite (wrap32_small (last - b * per)) by lia.
    rewrite (wrap32_small ((last - b * per) * 2)) by lia.
    replace ((last - b * per) * 2) with (2 * (last - b * per)) by lia.
    rewrite fill_vertices by lia. fold pair.
    split.
    - rewrite concat_app, Hcat. cbn [concat]. rewrite app_nil_r.
      rewrite Z.min_l by lia.
      replace (Z.min ((b + 1) * per) pcount) with (b * per + (last - b * per))
        by (unfold last; lia).
      rewrite (seqZ_app 0 (b * per)) by lia. by rewrite bind_app.
    - apply Forall_app. split; [done|]. apply Forall_singleton.
      split.
      + intros E. apply (f_equal length) in E. unfold pair in E.
        rewrite vertexPair_run_length in E by lia. cbn in E. lia.
      + unfold pair. rewrite vertexPair_run_length by lia. lia. }
  destruct Hinv as [Hcat Hall]. split; [|done].
  rewrite Hcat. by rewrite Z.min_r by lia.
Qed.
End Batches.

Lemma drawParticles_batches_witness :
  concat (drawParticles 5 4 driftingParticles window800)
  = seqZ 0 5 ≫= vertexPair driftingParticles window800.
Proof.
  refine (proj1 (drawParticles_batches driftingParticles window800 5 4 _ _ _ _));
    [lia | lia | by vm_compute | reflexivity].
Defined.

(** ** Particle streaks *)

(** X16. On the reals, the segment [drawParticles] draws for a particle
    is never shorter than one pixel: its two vertices are at least 1
    apart along x or along y, whatever the velocity and the window.  A
    particle at rest is drawn as the segment from its position to the
    point one pixel further in y. *)
Theorem particle_streak_visible (particles : Particles R) (visualDimensions : Vec2 R)
  (particleId : Z) :
  let vs := particleVertices particles visualDimensions particleId in
  let dx := (Vec3.x (BatchVertex.pos vs.1) - Vec3.x (BatchVertex.pos vs.2))%R in
  let dy := (Vec3.y (BatchVertex.pos vs.1) - Vec3.y (BatchVertex.pos vs.2))%R in
  (1 <= Rabs dx ∨ 1 <= Rabs dy)%R
  ∧ (vel particles !!! Z.to_nat particleId = Vec2.make 0%R 0%R →
     dx = 0%R ∧ dy = (-1)%R).
Proof.
  cbv zeta. unfold particleVertices, streakDir, vmul. cbv zeta.
  cbn [fst snd BatchVertex.pos Vec3.x Vec3.y Line2.start Line2.end_].
  set (v := vel particles !!! Z.to_nat particleId).
  set (p := pos particles !!! Z.to_nat particleId).
  real_ops.
  split.
  - destruct (Rltb _ 1) eqn:Hx; [destruct (Rleb _ 1) eqn:Hy|];
      cbn [andb Vec2.x Vec2.y].
    + right. replace (_ - _)%R with (-1)%R by ring.
      unfold Rabs. destruct (Rcase_abs _); lra.
    + right. apply Rleb_false in Hy.
      match goal with
      | |- (1 <= Rabs ?e)%R =>
          replace e with (Vec2.y v * Vec2.y visualDimensions * 6)%R by ring
      end.
      lra.
    + left. apply Rltb_false in Hx.
      match goal with
      | |- (1 <= Rabs ?e)%R =>
          replace e with (Vec2.x v * Vec2.x visualDimensions * 6)%R by ring
      end.
      lra.
  - intros ->. cbn [Vec2.x Vec2.y].
    rewrite !Rmult_0_l, Rabs_R0.
    rewrite (proj2 (Rltb_true 0 1)) by lra. rewrite (proj2 (Rleb_true 0 1)) by lra.
    cbn [andb Vec2.x Vec2.y]. split; ring.
Qed.

Lemma particle_streak_visible_witness :
  let vs := particleVertices driftingParticles window800 2 in
  (1 <= Rabs (Vec3.x (BatchVertex.pos vs.1) - Vec3.x (BatchVertex.pos vs.2))
   ∨ 1 <= Rabs (Vec3.y (BatchVertex.pos vs.1) - Vec3.y (BatchVertex.pos vs.2)))%R.
Proof.
  exact (proj1 (particle_streak_visible driftingParticles window800 2)).
Defined.

(** ** The field view *)

Section FieldLines.
Context {F : Type} `{FloatOps F} `{RenderOps F} `{ColorConv F}.
Variables width height : Z.
Variables (vf : VectorField F) (visualDimensions : Vec2 F).


End FieldLines.

Section FieldView.
Local Open Scope R_scope.

End FieldView.


(** ** The calls of a frame *)

Section DrawnFrames.
Context {F : Type} `{FloatOps F} `{PowOp F} `{RenderOps F} `{ColorConv F}
        {Rand : Type} `{RandOps F Rand}.
Variables width height pcount maxVerticesPerBatch : Z.

Lemma update_views (st : State) (fr : Frame) :
  showParticles (update width height pcount st fr) = showParticles st
  ∧ showField (update width height pcount st fr) = showField st
  ∧ visualDimensions (update width height pcount st fr) = sizeFloat fr
  ∧ brushPos (update width height pcount st fr) = vdiv (mousePos fr) (sizeFloat fr).
Proof. unfold update. cbv zeta. by destruct (updateParticles _ _ _ _ _ _). Qed.

Lemma run_views (st : State) (frames : list Frame) :
  showParticles (run width height pcount st frames) = showParticles st
  ∧ showField (run width height pcount st frames) = showField st.
Proof.
  unfold run. revert st. induction frames as [|fr frs IH]; intros st; [done|].
  simpl. destruct (IH (update width height pcount st fr)) as [-> ->].
  by destruct (update_views st fr) as (-> & -> & _).
Qed.

Lemma startup_views (seed : Rand) :
  showParticles (startup width height pcount seed) = true
  ∧ showField (startup width height pcount seed) = false.
Proof. unfold startup. cbv zeta. by destruct (initParticles _ _ _). Qed.

(** The lines among the calls of [draw]: those of the field view and
    those of the brush outline, each when its flag is set. *)
Lemma draw_lines (st : @State F Rand) (l : DrawnLine F) :
  DrawLine l ∈ draw width height pcount maxVerticesPerBatch st
  ↔ (showField st = true
     ∧ l ∈ drawField width height (vectorField st) (visualDimensions st))
    ∨ (showBrush st = true
       ∧ l ∈ drawBrush (vmul (brushPos st) (visualDimensions st))
               (fmul (brushRadius st) (Vec2.x (visualDimensions st)))).
Proof.
  unfold draw. rewrite !elem_of_app, !elem_of_cons, elem_of_nil.
  assert (Hline : ∀ ls : list (DrawnLine F), DrawLine l ∈ DrawLine <$> ls ↔ l ∈ ls).
  { intros ls. rewrite list_elem_of_fmap. split.
    - intros (l' & E & Hin). by inversion E.
    - intros Hin. by exists l. }
  assert (Hvert : ∀ bs : list (list (BatchVertex F)),
            ¬ DrawLine l ∈ DrawVertices <$> bs).
  { intros bs Hin. apply list_elem_of_fmap in Hin as (b & E & _). done. }
  destruct (showParticles st), (showField st), (showBrush st);
    rewrite ?elem_of_cons, ?elem_of_app, ?list_elem_of_singleton, ?elem_of_nil, ?Hline;
    split; intros Hin;
    repeat match goal with
           | Hd : _ ∨ _ |- _ => destruct Hd
           | Hd : _ ∧ _ |- _ => destruct Hd
           | Hd : DrawLine _ ∈ DrawVertices <$> _ |- _ => by apply Hvert in Hd
           end; try done; auto 10.
Qed.

(** X18. For every carrier, generator, grid and run of frames: in a state
    reached from [startup] the particle view is on and the field view off,
    since [update] changes neither flag; so [draw] never draws a line of
    [drawField], and every line among its calls is a segment of the brush
    outline, drawn only while the brush is shown. *)
Theorem reachable_draw_never_field (seed : Rand) (frames : list Frame) :
  let st := run width height pcount (startup width height pcount seed) frames in
  showParticles st = true ∧ showField st = false
  ∧ ∀ l, DrawLine l ∈ draw width height pcount maxVerticesPerBatch st →
      showBrush st = true
      ∧ l ∈ drawBrush (vmul (brushPos st) (visualDimensions st))
              (fmul (brushRadius st) (Vec2.x (visualDimensions st))).
Proof.
  cbv zeta.
  destruct (run_views (startup width height pcount seed) frames) as [Hp Hf].
  destruct (startup_views seed) as [Hp0 Hf0]. rewrite Hp0 in Hp. rewrite Hf0 in Hf.
  split; [done|]. split; [done|].
  intros l Hl. apply draw_lines in Hl as [[Hshow _]|Hl]; [|done].
  by rewrite Hf in Hshow.
Qed.
End DrawnFrames.

Lemma reachable_draw_never_field_witness :
  showField (run 512 512 150000 (startup 512 512 150000 0%Z)
               [strokeFrame; restFrame 1]) = false.
Proof.
  exact (proj1 (proj2 (reachable_draw_never_field 512 512 150000 2048 0%Z
                         [strokeFrame; restFrame 1]))).
Defined.

Section BrushOnScreen.
Context {Rand : Type} `{RandOps R Rand}.
Variables width height pcount maxVerticesPerBatch : Z.
Local Open Scope R_scope.

Lemma update_showBrush_held (st : @State R Rand) (fr : Frame) :
  button0 fr = true → microTime2 fr = microTime1 fr →
  showBrush (update width height pcount st fr) = true.
Proof.
  intros Hb Ht. unfold update. cbv zeta.
  destruct (updateParticles _ _ _ _ _ _). cbn [showBrush].
  rewrite Hb, orb_true_r, Ht, Z.sub_diag. done.
Qed.

(** X19. On the reals, for a window of non-zero size and a state whose
    field view is off: every line among the calls of [draw] after
    [update] has both ends at distance [brushRadius * width of the window]
    from the mouse position of the frame, in pixels.  The outline is
    centred on the pointer, and its radius is a fraction of the window's
    width, also when the window is not square. *)
Theorem brush_outline_follows_mouse (st : @State R Rand) (fr : Frame) (l : DrawnLine R) :
  Vec2.x (sizeFloat fr) ≠ 0 → Vec2.y (sizeFloat fr) ≠ 0 →
  showField st = false →
  DrawLine l ∈ draw width height pcount maxVerticesPerBatch
                 (update width height pcount st fr) →
  let radius := brushRadius (update width height pcount st fr) * Vec2.x (sizeFloat fr) in
  vlength (vsub (Line2.start (line l)) (mousePos fr)) = Rabs radius
  ∧ vlength (vsub (Line2.end_ (line l)) (mousePos fr)) = Rabs radius.
Proof.
  intros Hx Hy Hfield Hl. cbv zeta.
  destruct (update_views width height pcount st fr) as (_ & Hf & Hvis & Hpos).
  apply draw_lines in Hl as [[Hshow _]|[_ Hl]].
  { by rewrite Hf, Hfield in Hshow. }
  rewrite Hvis, Hpos in Hl.
  assert (Hc : vmul (vdiv (mousePos fr) (sizeFloat fr)) (sizeFloat fr) = mousePos fr).
  { unfold vmul. real_ops. apply vec2_eq; cbn [Vec2.x Vec2.y]; field; done. }
  rewrite Hc, drawBrush_segments in Hl.
  apply list_elem_of_fmap in Hl as (i & -> & _).
  cbn [line Line2.start Line2.end_ fmul Rops].
  by rewrite !brushVertex_on_circle.
Qed.
End BrushOnScreen.

Lemma brush_outline_follows_mouse_witness :
  let st := update 512 512 150000 driftingState strokeFrame in
  ∃ l, DrawLine l ∈ draw 512 512 150000 2048 st
     ∧ vlength (vsub (Line2.start (line l)) (mousePos strokeFrame))
       = Rabs (brushRadius st * Vec2.x (sizeFloat strokeFrame)).
Proof.
  cbv zeta.
  assert (Hx : Vec2.x (sizeFloat strokeFrame) ≠ 0%R)
    by (cbn [strokeFrame sizeFloat Vec2.x]; lra).
  assert (Hy : Vec2.y (sizeFloat strokeFrame) ≠ 0%R)
    by (cbn [strokeFrame sizeFloat Vec2.y]; lra).
  match goal with
  | |- ∃ l, DrawLine l ∈ draw _ _ _ _ ?st ∧ _ =>
      assert (Hin : DrawLine
                      (mkDrawnLine
                         (Line2.make
                            (brushVertex (vmul (brushPos st) (visualDimensions st))
                               (fmul (brushRadius st) (Vec2.x (visualDimensions st))) 0)
                            (brushVertex (vmul (brushPos st) (visualDimensions st))
                               (fmul (brushRadius st) (Vec2.x (visualDimensions st)))
                               (0 + 1)))
                         white white)
                    ∈ draw 512 512 150000 2048 st)
  end.
  { apply draw_lines. right. split.
    - by apply update_showBrush_held.
    - rewrite drawBrush_segments.
      apply list_elem_of_fmap. exists 0. split; [done|].
      apply elem_of_seqZ. lia. }
  pose proof (brush_outline_follows_mouse 512 512 150000 2048 driftingState
                strokeFrame _ Hx Hy eq_refl Hin) as Hthm.
  cbv zeta in Hthm. destruct Hthm as [Hstart _].
  eexists. split; [exact Hin|exact Hstart].
Defined.

Lemma reachable_field_bounded_witness :
  field_bounded 512 512
    (vectorField (run 512 512 150000 (startup 512 512 150000 0%Z)
                    [strokeFrame; restFrame 1])).
Proof.
  exact (reachable_field_bounded 512 512 150000 dims_ok_512 0%Z
           [strokeFrame; restFrame 1]).
Defined.
